(** * PNG metadata cleaner: chunk reader, filter and writer

    A shallow embedding of [clean_png_metadata.py]: the PNG chunk record,
    [compute_crc], [read_png_chunks], [write_png_chunks] and [filter_chunks],
    followed by the properties of the codec.

    Conventions of the embedding:
    - Python [bytes] is [list byte]; a Python [str] is its list of Unicode
      code points ([list N]), so that U+FFFD, which [decode(errors="replace")]
      produces, is representable;
    - Python [int] is [Z];
    - an opened file is the list of bytes not yet consumed; [f.read(n)]
      returns at most [n] of them and leaves the rest;
    - a raised exception is the [Raise] outcome, carrying the values the
      source interpolates into the message (the file path, which every
      message ends with, is left out: the codec never looks at it). *)

From Stdlib Require Import ZArith List Lia Bool.
From Stdlib Require Import Strings.Byte Strings.Ascii Strings.String.
Import ListNotations.

Local Open Scope Z_scope.

(* ------------------------------------------------------------------ *)
(** ** Bytes, text and integers *)

Definition bytes := list byte.

(** A Python string: the sequence of its code points. *)
Definition str := list N.

Definition str_of_string (s : string) : str :=
  map N_of_ascii (list_ascii_of_string s).

Definition len {A} (l : list A) : Z := Z.of_nat (List.length l).
Arguments len : simpl never.

Definition Z_of_byte (b : byte) : Z := Z.of_N (Byte.to_N b).

Definition byte_of_Z (z : Z) : byte :=
  match Byte.of_N (Z.to_N z) with
  | Some b => b
  | None => x00
  end.

Definition bytes_eqb (a b : bytes) : bool :=
  if list_eq_dec Byte.byte_eq_dec a b then true else false.

Definition str_eqb (a b : str) : bool :=
  if list_eq_dec N.eq_dec a b then true else false.

(** [int.from_bytes(bs, "big")]. *)
Definition from_bytes (bs : bytes) : Z :=
  fold_left (fun acc b => acc * 256 + Z_of_byte b) bs 0.

(** The [size] big-endian base-256 digits of [n]. *)
Fixpoint be_digits (size : nat) (n : Z) : bytes :=
  match size with
  | O => []
  | S k => be_digits k (n / 256) ++ [byte_of_Z (n mod 256)]
  end.

(** Outcome of a call: a returned value or a raised exception. *)
Inductive result (E A : Type) : Type :=
| Ok (a : A)
| Raise (e : E).
Arguments Ok {E A} a.
Arguments Raise {E A} e.

(** What the writer can raise: [int.to_bytes] raises [OverflowError] when the
    value is negative or does not fit, [str.encode("ascii")] raises
    [UnicodeEncodeError] at the first code point above 127. *)
Inductive WriteError : Type :=
| OverflowError (n : Z)
| UnicodeEncodeError (s : str).

(** [n.to_bytes(size, "big")]. *)
Definition to_bytes (n : Z) (size : nat) : result WriteError bytes :=
  if (0 <=? n) && (n <? 256 ^ Z.of_nat size)
  then Ok (be_digits size n)
  else Raise (OverflowError n).

Definition REPLACEMENT_CHARACTER : N := 0xFFFD%N.

(** [bs.decode("ascii", errors="replace")]: a byte below 128 is its own code
    point, any other byte becomes one U+FFFD. *)
Definition decode_ascii_replace (bs : bytes) : str :=
  map (fun b => if (Byte.to_N b <? 128)%N then Byte.to_N b
                else REPLACEMENT_CHARACTER) bs.

Definition is_ascii (s : str) : bool := forallb (fun c => (c <? 128)%N) s.

(** [s.encode("ascii")]: strict, raises on a code point above 127. *)
Definition encode_ascii (s : str) : result WriteError bytes :=
  if is_ascii s then Ok (map (fun c => byte_of_Z (Z.of_N c)) s)
  else Raise (UnicodeEncodeError s).

(* ------------------------------------------------------------------ *)
(** ** CRC-32

    [binascii.crc32] is the CRC-32 of zlib and of the PNG specification:
    reflected polynomial 0xEDB88320, register preset to all ones, result
    complemented.  It is given here by its defining bit-serial algorithm. *)

Definition CRC_POLY : Z := 0xEDB88320.

Definition crc_bit (c : Z) : Z :=
  if Z.odd c then Z.lxor (Z.shiftr c 1) CRC_POLY else Z.shiftr c 1.

Definition crc_byte (c : Z) (b : byte) : Z :=
  Nat.iter 8 crc_bit (Z.lxor c (Z_of_byte b)).

Definition crc32 (data : bytes) : Z :=
  Z.lxor (fold_left crc_byte data 0xFFFFFFFF) 0xFFFFFFFF.

Definition compute_crc (type_bytes data : bytes) : Z :=
  Z.land (crc32 (type_bytes ++ data)) 0xFFFFFFFF.

(* ------------------------------------------------------------------ *)
(** ** The chunk record

    The fields of the dataclass, with a trailing underscore: the bare names
    are those of list functions and of the reader's local variables. *)

Record PNGChunk : Type := mkPNGChunk {
  length_ : Z;        (* [length] *)
  type_ : str;        (* [type], "4-char ASCII" *)
  data_ : bytes;      (* [data] *)
  crc_ : Z            (* [crc] *)
}.

Definition PNG_SIGNATURE : bytes :=
  [x89; x50; x4e; x47; x0d; x0a; x1a; x0a].

(* ------------------------------------------------------------------ *)
(** ** Reading *)

(** The first [n] bytes of the stream, fewer when it is shorter. *)
Fixpoint take (n : Z) (f : bytes) : bytes :=
  match f with
  | [] => []
  | b :: f' => if n <=? 0 then [] else b :: take (n - 1) f'
  end.

Fixpoint drop (n : Z) (f : bytes) : bytes :=
  match f with
  | [] => []
  | b :: f' => if n <=? 0 then f else drop (n - 1) f'
  end.

(** [f.read(n)]: the bytes read and the stream left. *)
Definition read (n : Z) (f : bytes) : bytes * bytes := (take n f, drop n f).

(** The [ValueError]s of [read_png_chunks], one constructor per [raise]:
    - [NotValidPNG]: "Not a valid PNG file: ..."
    - [EOFLength]: "Unexpected EOF while reading length in ..."
    - [EOFType]: "Unexpected EOF while reading type in ..."
    - [EOFData t]: "Unexpected EOF while reading data for t in ..."
    - [EOFCRC t]: "Unexpected EOF while reading CRC for t in ..."
    - [CRCMismatch t e c]: "CRC mismatch for chunk t in ...: expected 0xe,
      got 0xc". *)
Inductive ValueError : Type :=
| NotValidPNG
| EOFLength
| EOFType
| EOFData (chunk_type : str)
| EOFCRC (chunk_type : str)
| CRCMismatch (chunk_type : str) (expected_crc crc : Z).

(** The [while True] loop of [read_png_chunks].  Each turn reads one chunk;
    [fuel] bounds the number of turns and [None] means it ran out. *)
Fixpoint read_loop (fuel : nat) (f : bytes) (chunks : list PNGChunk)
  : option (result ValueError (list PNGChunk)) :=
  match fuel with
  | O => None
  | S fuel' =>
    let (len_bytes, f1) := read 4 f in
    if bytes_eqb len_bytes [] then Some (Ok chunks)
    else if negb (len len_bytes =? 4) then Some (Raise EOFLength)
    else
      let length := from_bytes len_bytes in
      let (type_bytes, f2) := read 4 f1 in
      if negb (len type_bytes =? 4) then Some (Raise EOFType)
      else
        let chunk_type := decode_ascii_replace type_bytes in
        let (data, f3) := read length f2 in
        if negb (len data =? length) then Some (Raise (EOFData chunk_type))
        else
          let (crc_bytes, f4) := read 4 f3 in
          if negb (len crc_bytes =? 4) then Some (Raise (EOFCRC chunk_type))
          else
            let crc := from_bytes crc_bytes in
            let expected_crc := compute_crc type_bytes data in
            if negb (crc =? expected_crc)
            then Some (Raise (CRCMismatch chunk_type expected_crc crc))
            else read_loop fuel' f4
                   (chunks ++ [mkPNGChunk length chunk_type data crc])
  end.

(** [read_png_chunks], on the content of the file at [file_path].  Every turn
    of the loop that goes on has consumed at least 12 bytes, so one turn per
    byte left, and one more to see the end, is enough. *)
Definition read_png_chunks (file : bytes)
  : option (result ValueError (list PNGChunk)) :=
  let (sig, f) := read 8 file in
  if negb (bytes_eqb sig PNG_SIGNATURE) then Some (Raise NotValidPNG)
  else read_loop (S (List.length f)) f [].

(* ------------------------------------------------------------------ *)
(** ** Writing *)

(** The four writes of one turn of the [for ch in chunks] loop. *)
Definition write_chunk (ch : PNGChunk) : result WriteError bytes :=
  match to_bytes (length_ ch) 4 with
  | Raise e => Raise e
  | Ok len_bytes =>
    match encode_ascii (type_ ch) with
    | Raise e => Raise e
    | Ok type_bytes =>
      match to_bytes (crc_ ch) 4 with
      | Raise e => Raise e
      | Ok crc_bytes => Ok (len_bytes ++ type_bytes ++ data_ ch ++ crc_bytes)
      end
    end
  end.

(** The loop: what has been written so far is [f]. *)
Fixpoint write_loop (chunks : list PNGChunk) (f : bytes)
  : result WriteError bytes :=
  match chunks with
  | [] => Ok f
  | ch :: rest =>
    match write_chunk ch with
    | Raise e => Raise e
    | Ok bs => write_loop rest (f ++ bs)
    end
  end.

(** [write_png_chunks]: the content of the file at [dest_path] and the
    returned [st_size]. *)
Definition write_png_chunks (chunks : list PNGChunk)
  : result WriteError (bytes * Z) :=
  match write_loop chunks PNG_SIGNATURE with
  | Raise e => Raise e
  | Ok f => Ok (f, len f)
  end.

(* ------------------------------------------------------------------ *)
(** ** Filtering *)

Definition CORE_CHUNKS : list str :=
  map str_of_string ["IHDR"; "PLTE"; "IDAT"; "IEND"]%string.

Definition DROP_CHUNKS : list str :=
  map str_of_string ["tEXt"; "zTXt"; "iTXt"; "tIME"; "pHYs"; "gAMA"]%string.

(** [t in S] for a set of strings. *)
Definition str_in (t : str) (names : list str) : bool :=
  existsb (str_eqb t) names.

(** The [for ch in chunks] loop of [filter_chunks] on its two variables. *)
Fixpoint filter_loop (chunks : list PNGChunk) (kept : list PNGChunk)
  (removed : Z) : list PNGChunk * Z :=
  match chunks with
  | [] => (kept, removed)
  | ch :: rest =>
    if str_in (type_ ch) CORE_CHUNKS then filter_loop rest (kept ++ [ch]) removed
    else if str_in (type_ ch) DROP_CHUNKS then filter_loop rest kept (removed + 1)
    else filter_loop rest (kept ++ [ch]) removed
  end.

Definition filter_chunks (chunks : list PNGChunk) : list PNGChunk * Z :=
  filter_loop chunks [] 0.

(** The three-way decision that the branches of [filter_chunks] take on a
    chunk's type. *)
Inductive chunk_class : Type := Core | Dropped | PassThrough.

Definition classify (t : str) : chunk_class :=
  if str_in t CORE_CHUNKS then Core
  else if str_in t DROP_CHUNKS then Dropped
  else PassThrough.

(* ------------------------------------------------------------------ *)
(** ** Vocabulary of the statements *)

(** An unsigned 32-bit value. *)
Definition u32 (c : Z) : Prop := 0 <= c < 2 ^ 32.

(** One chunk as it lies in a file: its four raw type bytes and its data.
    The length and CRC fields of a well-formed record are determined by
    these two. *)
Record WireChunk : Type := mkWireChunk {
  wire_type : bytes;
  wire_data : bytes
}.

Definition wire_ok (r : WireChunk) : Prop :=
  len (wire_type r) = 4 /\ len (wire_data r) < 2 ^ 32.

(** [length:u32BE | type:4 bytes | data | crc:u32BE]. *)
Definition wire_bytes (r : WireChunk) : bytes :=
  be_digits 4 (len (wire_data r)) ++ wire_type r ++ wire_data r ++
  be_digits 4 (compute_crc (wire_type r) (wire_data r)).

(** The record the reader builds from a well-formed wire chunk. *)
Definition chunk_of (r : WireChunk) : PNGChunk :=
  mkPNGChunk (len (wire_data r)) (decode_ascii_replace (wire_type r))
    (wire_data r) (compute_crc (wire_type r) (wire_data r)).

(** A stream that ends at a chunk boundary: the signature followed by whole,
    CRC-correct chunk records and nothing else. *)
Definition wire_stream (rs : list WireChunk) : bytes :=
  PNG_SIGNATURE ++ flat_map wire_bytes rs.

(** The size the writer is to report: the signature and, for each chunk,
    three 4-byte fields and the data. *)
Definition written_size (chunks : list PNGChunk) : Z :=
  8 + fold_right (fun ch acc => 12 + length_ ch + acc) 0 chunks.

(** A chunk whose fields fit the record layout: the condition under which
    one turn of the writer emits [12 + length] bytes. *)
Definition writable (ch : PNGChunk) : Prop :=
  length_ ch = len (data_ ch) /\ len (type_ ch) = 4 /\
  is_ascii (type_ ch) = true /\ u32 (length_ ch) /\ u32 (crc_ ch).

(** A chunk as the reader produces them: one of the chunks that
    [read_png_chunks] returned for some file. *)
Definition reader_produced (ch : PNGChunk) : Prop :=
  exists (file : bytes) (chunks : list PNGChunk),
    read_png_chunks file = Some (Ok chunks) /\ In ch chunks.

(** A file with one empty chunk of raw type [80 41 42 43] and the CRC-32 of
    those four bytes, 0x90DFB37D. *)
Definition non_ascii_type_file : bytes :=
  PNG_SIGNATURE ++
  [x00; x00; x00; x00; x80; x41; x42; x43; x90; xdf; xb3; x7d].

Definition non_ascii_type_chunk : PNGChunk :=
  mkPNGChunk 0 [REPLACEMENT_CHARACTER; 65%N; 66%N; 67%N] [] 0x90DFB37D.

(** Whether [filter_chunks] is to keep a chunk, in the words of the
    specification: its type is in the core set or in neither set. *)
Definition kept_type (t : str) : bool :=
  str_in t CORE_CHUNKS ||
  negb (str_in t CORE_CHUNKS) && negb (str_in t DROP_CHUNKS).

Definition bytes_of_string (s : string) : bytes :=
  map byte_of_ascii (list_ascii_of_string s).

(** The two sets as constant 4-byte arrays. *)
Definition CORE_CHUNKS_BYTES : list bytes :=
  map bytes_of_string ["IHDR"; "PLTE"; "IDAT"; "IEND"]%string.

Definition DROP_CHUNKS_BYTES : list bytes :=
  map bytes_of_string ["tEXt"; "zTXt"; "iTXt"; "tIME"; "pHYs"; "gAMA"]%string.

Definition bytes_in (t : bytes) (names : list bytes) : bool :=
  existsb (bytes_eqb t) names.

(** Classification by raw 4-byte equality, as the specification's design
    note words it: the type is a byte array compared against constant byte
    arrays. *)
Definition classify_raw (type_bytes : bytes) : chunk_class :=
  if bytes_in type_bytes CORE_CHUNKS_BYTES then Core
  else if bytes_in type_bytes DROP_CHUNKS_BYTES then Dropped
  else PassThrough.

(** The four fields of a chunk as the reader has them at the end of a turn,
    the type still as raw bytes. *)
Record RawFields : Type := mkRawFields {
  raw_length : Z;
  raw_type : bytes;
  raw_data : bytes;
  raw_crc : Z
}.

(** The record the reader appends for them: the type decoded, the rest as
    it is. *)
Definition as_read (x : RawFields) : PNGChunk :=
  mkPNGChunk (raw_length x) (decode_ascii_replace (raw_type x)) (raw_data x)
    (raw_crc x).

(** Whether classification by raw bytes keeps a chunk. *)
Definition kept_raw (type_bytes : bytes) : bool :=
  match classify_raw type_bytes with
  | Dropped => false
  | Core | PassThrough => true
  end.

(** The error kinds of the specification.  The source raises [ValueError]
    at every site; the kind is told by the site. *)
Inductive ErrorKind : Type := FormatError | TruncationError | IntegrityError.

Definition error_kind (e : ValueError) : ErrorKind :=
  match e with
  | NotValidPNG => FormatError
  | EOFLength | EOFType | EOFData _ | EOFCRC _ => TruncationError
  | CRCMismatch _ _ _ => IntegrityError
  end.

Inductive ChunkField : Type := FieldLength | FieldType | FieldData | FieldCRC.

(** The field a message says was being read. *)
Definition error_field (e : ValueError) : option ChunkField :=
  match e with
  | EOFLength => Some FieldLength
  | EOFType => Some FieldType
  | EOFData _ => Some FieldData
  | EOFCRC _ => Some FieldCRC
  | NotValidPNG | CRCMismatch _ _ _ => None
  end.

(** The chunk type a message names, when it names one. *)
Definition error_chunk_type (e : ValueError) : option str :=
  match e with
  | EOFData t | EOFCRC t | CRCMismatch t _ _ => Some t
  | NotValidPNG | EOFLength | EOFType => None
  end.

(** The chunk index a message names: no message of the source has one. *)
Definition error_chunk_index (e : ValueError) : option Z := None.

(** The two CRC values a message reports. *)
Definition error_crcs (e : ValueError) : option (Z * Z) :=
  match e with
  | CRCMismatch _ expected_crc crc => Some (expected_crc, crc)
  | _ => None
  end.

(** [ends_in fld tail]: [tail], the bytes after the last whole chunk, stops
    inside the field [fld] of the next one (or just before it, for the three
    fields that follow the length). *)
Inductive ends_in : ChunkField -> bytes -> Prop :=
| ends_in_length (tail : bytes) :
    0 < len tail < 4 -> ends_in FieldLength tail
| ends_in_type (len_bytes t : bytes) :
    len len_bytes = 4 -> len t < 4 -> ends_in FieldType (len_bytes ++ t)
| ends_in_data (len_bytes type_bytes d : bytes) :
    len len_bytes = 4 -> len type_bytes = 4 -> len d < from_bytes len_bytes ->
    ends_in FieldData (len_bytes ++ type_bytes ++ d)
| ends_in_crc (len_bytes type_bytes d c : bytes) :
    len len_bytes = 4 -> len type_bytes = 4 -> len d = from_bytes len_bytes ->
    len c < 4 ->
    ends_in FieldCRC (len_bytes ++ type_bytes ++ d ++ c).

(* ------------------------------------------------------------------ *)
(** ** Vocabulary of the further properties *)

(** [sum(ch.length for ch in chunks) + 12 * len(chunks)]: the size that
    [main] accounts for a chunk list (its [total_before] and
    [total_after]). *)
Definition total_size (chunks : list PNGChunk) : Z :=
  fold_left Z.add (map length_ chunks) 0 + 12 * len chunks.

(** The bytes of an ASCII string (what [encode_ascii] returns for it). *)
Definition ascii_bytes (s : str) : bytes :=
  map (fun c => byte_of_Z (Z.of_N c)) s.

(** A chunk whose three encoded fields the writer can produce. *)
Definition encodable (ch : PNGChunk) : Prop :=
  u32 (length_ ch) /\ is_ascii (type_ ch) = true /\ u32 (crc_ ch).

(** A chunk laid out for the wire, its CRC left aside: the length field is
    the length of the data and fits 32 bits, the type is four ASCII
    characters. *)
Definition framed (ch : PNGChunk) : Prop :=
  length_ ch = len (data_ ch) /\ u32 (length_ ch) /\
  len (type_ ch) = 4 /\ is_ascii (type_ ch) = true.

(** A framed chunk whose [crc] is the CRC-32 of its type and data. *)
Definition sealed (ch : PNGChunk) : Prop :=
  framed ch /\ crc_ ch = compute_crc (ascii_bytes (type_ ch)) (data_ ch).

Definition is_core (ch : PNGChunk) : bool := str_in (type_ ch) CORE_CHUNKS.

(** The wire chunk that the writer lays out for a chunk with an ASCII
    type. *)
Definition wire_of (ch : PNGChunk) : WireChunk :=
  mkWireChunk (ascii_bytes (type_ ch)) (data_ ch).

(* ------------------------------------------------------------------ *)
(** * Properties *)

(** ** Streams: [take] and [drop] *)

Section Streams.

Lemma len_nonneg {A} (l : list A) : 0 <= len l.
Proof. unfold len. lia. Qed.

Lemma len_app {A} (a b : list A) : len (a ++ b) = len a + len b.
Proof. unfold len. rewrite length_app. lia. Qed.

Lemma len_cons {A} (x : A) (l : list A) : len (x :: l) = 1 + len l.
Proof. unfold len. simpl List.length. lia. Qed.

Lemma len_nil {A} : len (@nil A) = 0.
Proof. reflexivity. Qed.

Lemma take_drop (n : Z) (f : bytes) : take n f ++ drop n f = f.
Proof.
  revert n. induction f as [|b f IH]; intros n; cbn [take drop app];
    [reflexivity|].
  destruct (n <=? 0); cbn [app]; [reflexivity|]. now rewrite IH.
Qed.

Lemma take_app_exact (a b : bytes) : take (len a) (a ++ b) = a.
Proof.
  induction a as [|x a IH]; cbn [take app].
  - destruct b; reflexivity.
  - rewrite len_cons. pose proof (len_nonneg a).
    destruct (1 + len a <=? 0) eqn:E; [apply Z.leb_le in E; lia|].
    replace (1 + len a - 1) with (len a) by lia. now rewrite IH.
Qed.

Lemma drop_app_exact (a b : bytes) : drop (len a) (a ++ b) = b.
Proof.
  induction a as [|x a IH]; cbn [drop app].
  - destruct b; reflexivity.
  - rewrite len_cons. pose proof (len_nonneg a).
    destruct (1 + len a <=? 0) eqn:E; [apply Z.leb_le in E; lia|].
    replace (1 + len a - 1) with (len a) by lia. exact IH.
Qed.

Lemma take_all (n : Z) (f : bytes) : len f <= n -> take n f = f.
Proof.
  revert n. induction f as [|b f IH]; intros n H; cbn [take]; [reflexivity|].
  rewrite len_cons in H. pose proof (len_nonneg f).
  destruct (n <=? 0) eqn:E; [apply Z.leb_le in E; lia|].
  rewrite IH by lia. reflexivity.
Qed.

Lemma len_take (n : Z) (f : bytes) : len (take n f) = Z.min (Z.max 0 n) (len f).
Proof.
  revert n. induction f as [|b f IH]; intros n; cbn [take].
  - rewrite len_nil. lia.
  - destruct (n <=? 0) eqn:E.
    + apply Z.leb_le in E. rewrite len_nil, len_cons.
      pose proof (len_nonneg f). lia.
    + apply Z.leb_gt in E. rewrite !len_cons, IH. lia.
Qed.

Lemma len_drop (n : Z) (f : bytes) : len (drop n f) = len f - len (take n f).
Proof.
  rewrite <- (take_drop n f) at 2. rewrite len_app. lia.
Qed.

Lemma take_nil_inv (n : Z) (f : bytes) : 0 < n -> take n f = [] -> f = [].
Proof.
  intros Hn. destruct f as [|b f]; cbn [take]; [reflexivity|].
  destruct (n <=? 0) eqn:E; [apply Z.leb_le in E; lia|]. discriminate.
Qed.

Lemma bytes_eqb_eq (a b : bytes) : bytes_eqb a b = true <-> a = b.
Proof.
  unfold bytes_eqb. destruct (list_eq_dec byte_eq_dec a b); split;
    congruence.
Qed.

Lemma bytes_eqb_refl (a : bytes) : bytes_eqb a a = true.
Proof. now apply bytes_eqb_eq. Qed.

Lemma str_eqb_eq (a b : str) : str_eqb a b = true <-> a = b.
Proof.
  unfold str_eqb. destruct (list_eq_dec N.eq_dec a b); split; congruence.
Qed.

End Streams.

(** ** Bytes and big-endian integers *)

Section Integers.

Lemma Z_of_byte_range (b : byte) : 0 <= Z_of_byte b < 256.
Proof.
  unfold Z_of_byte. pose proof (Byte.to_N_bounded b). lia.
Qed.

Lemma byte_of_Z_of_byte (b : byte) : byte_of_Z (Z_of_byte b) = b.
Proof.
  unfold byte_of_Z, Z_of_byte. rewrite N2Z.id, Byte.of_to_N. reflexivity.
Qed.

Lemma Z_of_byte_of_Z (z : Z) : 0 <= z < 256 -> Z_of_byte (byte_of_Z z) = z.
Proof.
  intros H. unfold byte_of_Z, Z_of_byte.
  destruct (Byte.of_N (Z.to_N z)) as [b|] eqn:E.
  - apply Byte.to_of_N in E. rewrite E. lia.
  - apply Byte.of_N_None_iff in E. lia.
Qed.

Lemma Z_of_byte_inj (a b : byte) : Z_of_byte a = Z_of_byte b -> a = b.
Proof.
  intros H. rewrite <- (byte_of_Z_of_byte a), <- (byte_of_Z_of_byte b).
  now rewrite H.
Qed.

Lemma from_bytes_snoc (bs : bytes) (b : byte) :
  from_bytes (bs ++ [b]) = from_bytes bs * 256 + Z_of_byte b.
Proof. unfold from_bytes. rewrite fold_left_app. reflexivity. Qed.

Lemma from_bytes_range (bs : bytes) :
  0 <= from_bytes bs < 256 ^ len bs.
Proof.
  induction bs as [|b bs IH] using rev_ind.
  - change (0 <= 0 < 1). lia.
  - rewrite from_bytes_snoc, len_app. change (len [b]) with 1.
    pose proof (Z_of_byte_range b). pose proof (len_nonneg bs).
    replace (len bs + 1) with (Z.succ (len bs)) by lia.
    rewrite Z.pow_succ_r by assumption. lia.
Qed.

Lemma length_be_digits (size : nat) (n : Z) :
  List.length (be_digits size n) = size.
Proof.
  revert n. induction size as [|k IH]; intros n; simpl; [reflexivity|].
  rewrite length_app, IH. simpl. lia.
Qed.

(** Writing back the digits that were read gives the bytes that were read. *)
Lemma be_digits_from_bytes (bs : bytes) :
  be_digits (List.length bs) (from_bytes bs) = bs.
Proof.
  induction bs as [|b bs IH] using rev_ind; [reflexivity|].
  rewrite length_app, Nat.add_comm. simpl.
  rewrite from_bytes_snoc. pose proof (Z_of_byte_range b).
  replace ((from_bytes bs * 256 + Z_of_byte b) / 256) with (from_bytes bs)
    by (symmetry; rewrite Z.add_comm; rewrite Z.div_add by lia;
        rewrite Z.div_small by lia; lia).
  replace ((from_bytes bs * 256 + Z_of_byte b) mod 256) with (Z_of_byte b)
    by (symmetry; rewrite Z.add_comm; rewrite Z.mod_add by lia;
        apply Z.mod_small; lia).
  now rewrite IH, byte_of_Z_of_byte.
Qed.

(** Reading the digits that were written gives the number that was written. *)
Lemma from_bytes_be_digits (size : nat) (n : Z) :
  0 <= n < 256 ^ Z.of_nat size -> from_bytes (be_digits size n) = n.
Proof.
  revert n. induction size as [|k IH]; intros n H.
  - cbn in *. lia.
  - simpl be_digits. rewrite from_bytes_snoc.
    rewrite Nat2Z.inj_succ, Z.pow_succ_r in H by lia.
    rewrite IH.
    + rewrite Z_of_byte_of_Z by (apply Z.mod_pos_bound; lia).
      pose proof (Z.div_mod n 256). lia.
    + split; [apply Z.div_pos; lia|].
      apply Z.div_lt_upper_bound; lia.
Qed.

Lemma to_bytes_from_bytes (bs : bytes) :
  to_bytes (from_bytes bs) (List.length bs) = Ok bs.
Proof.
  unfold to_bytes. pose proof (from_bytes_range bs) as H. unfold len in H.
  destruct (0 <=? from_bytes bs) eqn:E1; [|apply Z.leb_gt in E1; lia].
  destruct (from_bytes bs <? 256 ^ Z.of_nat (List.length bs)) eqn:E2;
    [|apply Z.ltb_ge in E2; lia].
  simpl. now rewrite be_digits_from_bytes.
Qed.

Lemma to_bytes_ok (n : Z) (size : nat) :
  0 <= n < 256 ^ Z.of_nat size -> to_bytes n size = Ok (be_digits size n).
Proof.
  intros H. unfold to_bytes.
  destruct (0 <=? n) eqn:E1; [|apply Z.leb_gt in E1; lia].
  destruct (n <? 256 ^ Z.of_nat size) eqn:E2; [|apply Z.ltb_ge in E2; lia].
  reflexivity.
Qed.

Lemma to_bytes_inv (n : Z) (size : nat) (bs : bytes) :
  to_bytes n size = Ok bs ->
  0 <= n < 256 ^ Z.of_nat size /\ bs = be_digits size n.
Proof.
  unfold to_bytes.
  destruct (0 <=? n) eqn:E1; [|discriminate].
  destruct (n <? 256 ^ Z.of_nat size) eqn:E2; [|discriminate].
  simpl. intros [= <-]. apply Z.leb_le in E1. apply Z.ltb_lt in E2. auto.
Qed.

End Integers.

(** ** CRC-32: the register stays on 32 bits and every step is injective *)

Section CRC.

Lemma u32_high_bits (a n : Z) : u32 a -> 32 <= n -> Z.testbit a n = false.
Proof.
  unfold u32. intros Ha Hn. rewrite <- (Z.mod_small a (2 ^ 32)) by lia.
  apply Z.mod_pow2_bits_high. lia.
Qed.

Lemma lxor_u32 (a b : Z) : u32 a -> u32 b -> u32 (Z.lxor a b).
Proof.
  intros Ha Hb.
  assert (E : Z.lxor a b = Z.lxor a b mod 2 ^ 32).
  { apply Z.bits_inj'. intros n Hn. destruct (Z.ltb_spec n 32).
    - now rewrite Z.mod_pow2_bits_low by lia.
    - rewrite Z.mod_pow2_bits_high by lia.
      rewrite Z.lxor_spec, !u32_high_bits by assumption. reflexivity. }
  unfold u32. rewrite E. apply Z.mod_pos_bound. lia.
Qed.

Lemma lxor_cancel_r (a b p : Z) : Z.lxor a p = Z.lxor b p -> a = b.
Proof.
  intros H.
  assert (E : forall x, Z.lxor (Z.lxor x p) p = x)
    by (intros x; now rewrite Z.lxor_assoc, Z.lxor_nilpotent, Z.lxor_0_r).
  rewrite <- (E a), <- (E b). now rewrite H.
Qed.

Lemma lxor_cancel_l (a b p : Z) : Z.lxor p a = Z.lxor p b -> a = b.
Proof. rewrite !(Z.lxor_comm p). apply lxor_cancel_r. Qed.

Lemma shiftr1_u32 (c : Z) : u32 c -> 0 <= Z.shiftr c 1 < 2 ^ 31.
Proof.
  unfold u32. intros H. rewrite Z.shiftr_div_pow2 by lia.
  change (2 ^ 1) with 2. split; [apply Z.div_pos; lia|].
  apply Z.div_lt_upper_bound; lia.
Qed.

Lemma halves (c : Z) : c = 2 * Z.shiftr c 1 + Z.b2z (Z.odd c).
Proof. rewrite <- Z.div2_spec. apply Z.div2_odd. Qed.

Lemma bit31_low (x : Z) : 0 <= x < 2 ^ 31 -> Z.testbit x 31 = false.
Proof.
  intros H. apply Z.testbit_false; [lia|].
  rewrite Z.div_small by lia. reflexivity.
Qed.

Lemma crc_bit_u32 (c : Z) : u32 c -> u32 (crc_bit c).
Proof.
  intros H. unfold crc_bit. pose proof (shiftr1_u32 c H) as Hs.
  destruct (Z.odd c).
  - apply lxor_u32; unfold u32, CRC_POLY; lia.
  - unfold u32. lia.
Qed.

(** The top bit of the new register tells whether the polynomial was added. *)
Lemma crc_bit_top (c : Z) : u32 c -> Z.testbit (crc_bit c) 31 = Z.odd c.
Proof.
  intros H. unfold crc_bit. pose proof (shiftr1_u32 c H) as Hs.
  destruct (Z.odd c).
  - rewrite Z.lxor_spec, bit31_low by assumption. reflexivity.
  - now apply bit31_low.
Qed.

Lemma crc_bit_inj (c c' : Z) :
  u32 c -> u32 c' -> crc_bit c = crc_bit c' -> c = c'.
Proof.
  intros H H' E.
  assert (O : Z.odd c = Z.odd c')
    by (rewrite <- (crc_bit_top c H), <- (crc_bit_top c' H'); now rewrite E).
  unfold crc_bit in E. rewrite <- O in E.
  rewrite (halves c), (halves c'), <- O.
  destruct (Z.odd c).
  - apply lxor_cancel_r in E. now rewrite E.
  - now rewrite E.
Qed.

Lemma crc_bits_u32 (n : nat) (c : Z) : u32 c -> u32 (Nat.iter n crc_bit c).
Proof.
  intros H. induction n as [|n IH]; [exact H|]. simpl. now apply crc_bit_u32.
Qed.

Lemma crc_bits_inj (n : nat) (c c' : Z) :
  u32 c -> u32 c' -> Nat.iter n crc_bit c = Nat.iter n crc_bit c' -> c = c'.
Proof.
  intros H H'. induction n as [|n IH]; [trivial|]. simpl. intros E.
  apply IH. apply crc_bit_inj in E; auto using crc_bits_u32.
Qed.

Lemma Z_of_byte_u32 (b : byte) : u32 (Z_of_byte b).
Proof. pose proof (Z_of_byte_range b). unfold u32. lia. Qed.

Lemma crc_byte_u32 (c : Z) (b : byte) : u32 c -> u32 (crc_byte c b).
Proof.
  intros H. unfold crc_byte. apply crc_bits_u32, lxor_u32; trivial.
  apply Z_of_byte_u32.
Qed.

(** For a given byte, distinct registers stay distinct. *)
Lemma crc_byte_inj_state (c c' : Z) (b : byte) :
  u32 c -> u32 c' -> crc_byte c b = crc_byte c' b -> c = c'.
Proof.
  intros H H' E. unfold crc_byte in E.
  apply crc_bits_inj in E; try (apply lxor_u32; trivial; apply Z_of_byte_u32).
  now apply lxor_cancel_r in E.
Qed.

(** For a given register, distinct bytes give distinct registers. *)
Lemma crc_byte_inj_byte (c : Z) (b b' : byte) :
  u32 c -> crc_byte c b = crc_byte c b' -> b = b'.
Proof.
  intros H E. unfold crc_byte in E.
  apply crc_bits_inj in E; try (apply lxor_u32; trivial; apply Z_of_byte_u32).
  apply lxor_cancel_l in E. now apply Z_of_byte_inj.
Qed.

Lemma crc_fold_u32 (data : bytes) (c : Z) :
  u32 c -> u32 (fold_left crc_byte data c).
Proof.
  revert c. induction data as [|b data IH]; intros c H; simpl; [exact H|].
  apply IH. now apply crc_byte_u32.
Qed.

Lemma crc_fold_inj (data : bytes) (c c' : Z) :
  u32 c -> u32 c' ->
  fold_left crc_byte data c = fold_left crc_byte data c' -> c = c'.
Proof.
  revert c c'. induction data as [|b data IH]; intros c c' H H' E; simpl in E;
    [exact E|].
  apply IH in E; auto using crc_byte_u32.
  now apply crc_byte_inj_state in E.
Qed.

Lemma crc32_u32 (data : bytes) : u32 (crc32 data).
Proof.
  unfold crc32. apply lxor_u32.
  - apply crc_fold_u32. unfold u32. lia.
  - unfold u32. lia.
Qed.

(** A change of one byte changes the CRC-32. *)
Lemma crc32_detects_byte (pre post : bytes) (b b' : byte) :
  b <> b' -> crc32 (pre ++ b :: post) <> crc32 (pre ++ b' :: post).
Proof.
  intros Hb E. unfold crc32 in E. apply lxor_cancel_r in E.
  rewrite !fold_left_app in E. simpl in E.
  assert (H0 : u32 (fold_left crc_byte pre 0xFFFFFFFF))
    by (apply crc_fold_u32; unfold u32; lia).
  apply crc_fold_inj in E; auto using crc_byte_u32.
  now apply crc_byte_inj_byte in E.
Qed.

Lemma compute_crc_crc32 (type_bytes data : bytes) :
  compute_crc type_bytes data = crc32 (type_bytes ++ data).
Proof.
  unfold compute_crc. pose proof (crc32_u32 (type_bytes ++ data)) as H.
  unfold u32 in H. change 0xFFFFFFFF with (Z.ones 32).
  rewrite Z.land_ones by lia. apply Z.mod_small. lia.
Qed.

Lemma compute_crc_u32 (type_bytes data : bytes) :
  0 <= compute_crc type_bytes data < 2 ^ 32.
Proof. rewrite compute_crc_crc32. apply crc32_u32. Qed.

Lemma compute_crc_detects_byte (type_bytes d1 d2 : bytes) (b b' : byte) :
  b <> b' ->
  compute_crc type_bytes (d1 ++ b :: d2) <>
  compute_crc type_bytes (d1 ++ b' :: d2).
Proof.
  intros Hb. rewrite !compute_crc_crc32, !app_assoc.
  now apply crc32_detects_byte.
Qed.

End CRC.

(** ** The reader loop *)

Section Reader.

Lemma take_app_len (n : Z) (a b : bytes) : len a = n -> take n (a ++ b) = a.
Proof. intros <-. apply take_app_exact. Qed.

Lemma drop_app_len (n : Z) (a b : bytes) : len a = n -> drop n (a ++ b) = b.
Proof. intros <-. apply drop_app_exact. Qed.

Lemma len_drop_le (n : Z) (f : bytes) : len (drop n f) <= len f.
Proof. rewrite len_drop. pose proof (len_nonneg (take n f)). lia. Qed.

Lemma len4_not_nil (bs : bytes) : len bs = 4 -> bytes_eqb bs [] = false.
Proof.
  intros H. destruct (bytes_eqb bs []) eqn:E; [|reflexivity].
  apply bytes_eqb_eq in E. subst bs. discriminate H.
Qed.

(** One turn of the loop, with the reads written out. *)
Lemma read_loop_S (fuel : nat) (f : bytes) (chunks : list PNGChunk) :
  read_loop (S fuel) f chunks =
  if bytes_eqb (take 4 f) [] then Some (Ok chunks)
  else if negb (len (take 4 f) =? 4) then Some (Raise EOFLength)
  else
    let length := from_bytes (take 4 f) in
    let f1 := drop 4 f in
    if negb (len (take 4 f1) =? 4) then Some (Raise EOFType)
    else
      let chunk_type := decode_ascii_replace (take 4 f1) in
      let f2 := drop 4 f1 in
      if negb (len (take length f2) =? length)
      then Some (Raise (EOFData chunk_type))
      else
        let f3 := drop length f2 in
        if negb (len (take 4 f3) =? 4) then Some (Raise (EOFCRC chunk_type))
        else
          let crc := from_bytes (take 4 f3) in
          let expected_crc := compute_crc (take 4 f1) (take length f2) in
          if negb (crc =? expected_crc)
          then Some (Raise (CRCMismatch chunk_type expected_crc crc))
          else read_loop fuel (drop 4 f3)
                 (chunks ++
                  [mkPNGChunk length chunk_type (take length f2) crc]).
Proof. reflexivity. Qed.

(** A turn that goes on has consumed its length field. *)
Lemma turn_consumes (f : bytes) (n : Z) :
  (len (take 4 f) =? 4) = true ->
  (List.length (drop 4 (drop n (drop 4 (drop 4 f)))) + 4 <= List.length f)%nat.
Proof.
  intros E. apply Z.eqb_eq in E.
  pose proof (len_drop 4 f).
  pose proof (len_drop_le 4 (drop n (drop 4 (drop 4 f)))).
  pose proof (len_drop_le n (drop 4 (drop 4 f))).
  pose proof (len_drop_le 4 (drop 4 f)). unfold len in *. lia.
Qed.

(** Goes through the guards of one turn: [tac] closes the turns that stop,
    and the turn that goes on is left with the guard on the length field in
    the context. *)
Ltac loop_guards tac :=
  rewrite ?read_loop_S; cbv zeta;
  repeat match goal with
         | |- context [if negb ?c then _ else _] =>
           destruct c eqn:?; cbn [negb]; try solve [tac]
         | |- context [if bytes_eqb ?a ?b then _ else _] =>
           destruct (bytes_eqb a b); try solve [tac]
         end.

(** Fuel beyond the number of bytes left changes nothing. *)
Lemma read_loop_fuel (fuel1 fuel2 : nat) (f : bytes) (chunks : list PNGChunk) :
  (List.length f < fuel1)%nat -> (List.length f < fuel2)%nat ->
  read_loop fuel1 f chunks = read_loop fuel2 f chunks.
Proof.
  revert fuel2 f chunks.
  induction fuel1 as [|fuel1 IH]; intros fuel2 f chunks H1 H2; [lia|].
  destruct fuel2 as [|fuel2]; [lia|].
  loop_guards reflexivity.
  match goal with
  | E : (len (take 4 f) =? 4) = true |- _ =>
    pose proof (turn_consumes f (from_bytes (take 4 f)) E)
  end.
  apply IH; lia.
Qed.

Lemma read_loop_total (fuel : nat) (f : bytes) (chunks : list PNGChunk) :
  (List.length f < fuel)%nat -> read_loop fuel f chunks <> None.
Proof.
  revert f chunks.
  induction fuel as [|fuel IH]; intros f chunks H; [lia|].
  loop_guards discriminate.
  match goal with
  | E : (len (take 4 f) =? 4) = true |- _ =>
    pose proof (turn_consumes f (from_bytes (take 4 f)) E)
  end.
  apply IH; lia.
Qed.

(** [read_png_chunks] always returns or raises. *)
Lemma read_png_chunks_total (file : bytes) : read_png_chunks file <> None.
Proof.
  unfold read_png_chunks, read.
  destruct (negb (bytes_eqb (take 8 file) PNG_SIGNATURE)); [discriminate|].
  apply read_loop_total. lia.
Qed.

(** One turn on a stream that starts with the four fields of a chunk. *)
Lemma read_loop_turn (fuel : nat) (len_bytes type_bytes data crc_bytes rest : bytes)
  (chunks : list PNGChunk) :
  len len_bytes = 4 -> len type_bytes = 4 ->
  from_bytes len_bytes = len data -> len crc_bytes = 4 ->
  read_loop (S fuel) (len_bytes ++ type_bytes ++ data ++ crc_bytes ++ rest)
    chunks =
  if from_bytes crc_bytes =? compute_crc type_bytes data
  then read_loop fuel rest
         (chunks ++ [mkPNGChunk (len data) (decode_ascii_replace type_bytes)
                       data (from_bytes crc_bytes)])
  else Some (Raise (CRCMismatch (decode_ascii_replace type_bytes)
                      (compute_crc type_bytes data) (from_bytes crc_bytes))).
Proof.
  intros Hl Ht Hd Hc. rewrite read_loop_S.
  rewrite (take_app_len 4 len_bytes) by assumption.
  rewrite (drop_app_len 4 len_bytes) by assumption.
  rewrite len4_not_nil, Hl by assumption. cbn [Z.eqb Pos.eqb negb]. cbv zeta.
  rewrite (take_app_len 4 type_bytes) by assumption.
  rewrite (drop_app_len 4 type_bytes) by assumption.
  rewrite Ht. cbn [Z.eqb Pos.eqb negb].
  rewrite Hd, (take_app_len (len data) data) by reflexivity.
  rewrite (drop_app_len (len data) data) by reflexivity.
  rewrite Z.eqb_refl. cbn [negb].
  rewrite (take_app_len 4 crc_bytes) by assumption.
  rewrite (drop_app_len 4 crc_bytes) by assumption.
  rewrite Hc. cbn [Z.eqb Pos.eqb negb].
  destruct (from_bytes crc_bytes =? compute_crc type_bytes data); reflexivity.
Qed.

End Reader.

(** ** Streams made of whole chunks *)

Section Wire.

Lemma len_be_digits (size : nat) (n : Z) : len (be_digits size n) = Z.of_nat size.
Proof. unfold len. now rewrite length_be_digits. Qed.

Lemma from_bytes_be_digits4 (n : Z) : u32 n -> from_bytes (be_digits 4 n) = n.
Proof. intros H. apply from_bytes_be_digits. exact H. Qed.

Lemma wire_ok_len_u32 (r : WireChunk) : wire_ok r -> u32 (len (wire_data r)).
Proof. intros [_ H]. split; [apply len_nonneg|exact H]. Qed.

Lemma read_png_chunks_signature (f : bytes) :
  read_png_chunks (PNG_SIGNATURE ++ f) = read_loop (S (List.length f)) f [].
Proof.
  unfold read_png_chunks, read.
  rewrite (take_app_len 8 PNG_SIGNATURE) by reflexivity.
  rewrite (drop_app_len 8 PNG_SIGNATURE) by reflexivity.
  now rewrite bytes_eqb_refl.
Qed.

(** The loop reads one whole chunk and goes on with what follows it. *)
Lemma read_loop_wire (fuel : nat) (r : WireChunk) (rest : bytes)
  (chunks : list PNGChunk) :
  wire_ok r ->
  read_loop (S fuel) (wire_bytes r ++ rest) chunks =
  read_loop fuel rest (chunks ++ [chunk_of r]).
Proof.
  intros Hr. pose proof (wire_ok_len_u32 r Hr) as Hu. destruct Hr as [Ht _].
  unfold wire_bytes. rewrite <- !app_assoc.
  rewrite read_loop_turn.
  - rewrite from_bytes_be_digits4 by exact (compute_crc_u32 _ _).
    now rewrite Z.eqb_refl.
  - apply len_be_digits.
  - assumption.
  - now apply from_bytes_be_digits4.
  - apply len_be_digits.
Qed.

Lemma length_wire_bytes (r : WireChunk) :
  (8 <= List.length (wire_bytes r))%nat.
Proof.
  unfold wire_bytes. rewrite !length_app, !length_be_digits. lia.
Qed.

(** The loop reads a run of whole chunks and goes on with the tail. *)
Lemma read_loop_wires (rs : list WireChunk) (tail : bytes)
  (chunks : list PNGChunk) :
  Forall wire_ok rs ->
  read_loop (S (List.length (flat_map wire_bytes rs ++ tail)))
    (flat_map wire_bytes rs ++ tail) chunks =
  read_loop (S (List.length tail)) tail (chunks ++ map chunk_of rs).
Proof.
  intros H. revert chunks.
  induction H as [|r rs Hr _ IH]; intros chunks; cbn [flat_map map app].
  - now rewrite app_nil_r.
  - rewrite <- app_assoc, read_loop_wire by assumption.
    replace (chunks ++ chunk_of r :: map chunk_of rs)
      with ((chunks ++ [chunk_of r]) ++ map chunk_of rs)
      by now rewrite <- app_assoc.
    rewrite <- IH.
    apply read_loop_fuel; [|lia].
    rewrite (length_app (wire_bytes r)). pose proof (length_wire_bytes r). lia.
Qed.

(** What the reader returns on the whole chunks and a tail. *)
Lemma read_png_chunks_wires (rs : list WireChunk) (tail : bytes) :
  Forall wire_ok rs ->
  read_png_chunks (wire_stream rs ++ tail) =
  read_loop (S (List.length tail)) tail (map chunk_of rs).
Proof.
  intros H. unfold wire_stream. rewrite <- app_assoc.
  rewrite read_png_chunks_signature. now rewrite read_loop_wires.
Qed.

(** A loop that returns has read whole, CRC-correct chunks up to the end. *)
Lemma read_loop_Ok_inv (fuel : nat) (f : bytes) (acc chunks : list PNGChunk) :
  read_loop fuel f acc = Some (Ok chunks) ->
  exists rs, Forall wire_ok rs /\ f = flat_map wire_bytes rs /\
             chunks = acc ++ map chunk_of rs.
Proof.
  revert f acc.
  induction fuel as [|fuel IH]; intros f acc H; [discriminate|].
  rewrite read_loop_S in H.
  destruct (bytes_eqb (take 4 f) []) eqn:E0.
  { injection H as <-. apply bytes_eqb_eq in E0.
    apply take_nil_inv in E0; [|lia]. subst f.
    exists []. cbn. now rewrite app_nil_r. }
  destruct (len (take 4 f) =? 4) eqn:E1; [|discriminate]. cbn [negb] in H.
  cbv zeta in H.
  set (len_bytes := take 4 f) in *. set (f1 := drop 4 f) in *.
  set (type_bytes := take 4 f1) in *. set (f2 := drop 4 f1) in *.
  set (data := take (from_bytes len_bytes) f2) in *.
  set (f3 := drop (from_bytes len_bytes) f2) in *.
  set (crc_bytes := take 4 f3) in *. set (f4 := drop 4 f3) in *.
  destruct (len type_bytes =? 4) eqn:E2; [|discriminate]. cbn [negb] in H.
  destruct (len data =? from_bytes len_bytes) eqn:E3; [|discriminate].
  cbn [negb] in H.
  destruct (len crc_bytes =? 4) eqn:E4; [|discriminate]. cbn [negb] in H.
  destruct (from_bytes crc_bytes =? compute_crc type_bytes data) eqn:E5;
    [|discriminate]. cbn [negb] in H.
  apply Z.eqb_eq in E1, E2, E3, E4, E5.
  apply IH in H. destruct H as (rs & Hrs & Hf4 & Hch).
  exists (mkWireChunk type_bytes data :: rs).
  assert (Hlen : be_digits 4 (len data) = len_bytes).
  { rewrite E3. replace 4%nat with (List.length len_bytes)
      by (unfold len in E1; lia). apply be_digits_from_bytes. }
  assert (Hcrc : be_digits 4 (compute_crc type_bytes data) = crc_bytes).
  { rewrite <- E5. replace 4%nat with (List.length crc_bytes)
      by (unfold len in E4; lia). apply be_digits_from_bytes. }
  split; [|split].
  - constructor; [|assumption]. split; cbn [wire_type wire_data]; [assumption|].
    rewrite E3. pose proof (from_bytes_range len_bytes) as R.
    rewrite E1 in R. change (256 ^ 4) with (2 ^ 32) in R. lia.
  - cbn [flat_map]. unfold wire_bytes at 1. cbn [wire_type wire_data].
    rewrite Hlen, Hcrc, <- Hf4.
    rewrite <- (take_drop 4 f) at 1. fold len_bytes f1.
    rewrite <- (take_drop 4 f1) at 1. fold type_bytes f2.
    rewrite <- (take_drop (from_bytes len_bytes) f2) at 1. fold data f3.
    rewrite <- (take_drop 4 f3) at 1. fold crc_bytes f4.
    now rewrite <- !app_assoc.
  - rewrite Hch, <- app_assoc. cbn [map app]. unfold chunk_of at 2.
    cbn [wire_type wire_data]. now rewrite <- E3, <- E5.
Qed.

(** The streams the reader accepts. *)
Lemma read_png_chunks_Ok_iff (file : bytes) (chunks : list PNGChunk) :
  read_png_chunks file = Some (Ok chunks) <->
  exists rs, Forall wire_ok rs /\ file = wire_stream rs /\
             chunks = map chunk_of rs.
Proof.
  split.
  - unfold read_png_chunks, read.
    destruct (bytes_eqb (take 8 file) PNG_SIGNATURE) eqn:E; [|discriminate].
    cbn [negb]. intros H. apply read_loop_Ok_inv in H.
    destruct H as (rs & Hrs & Hf & Hch). exists rs.
    apply bytes_eqb_eq in E. unfold wire_stream.
    rewrite <- E, <- Hf, take_drop. auto.
  - intros (rs & Hrs & -> & ->).
    rewrite <- (app_nil_r (wire_stream rs)).
    now rewrite read_png_chunks_wires.
Qed.

End Wire.

(** ** The writer *)

Section Writer.

Lemma write_loop_app (chunks : list PNGChunk) (f : bytes) :
  write_loop chunks f =
  match write_loop chunks [] with
  | Ok body => Ok (f ++ body)
  | Raise e => Raise e
  end.
Proof.
  revert f. induction chunks as [|ch rest IH]; intros f; cbn [write_loop].
  - now rewrite app_nil_r.
  - destruct (write_chunk ch) as [bs|e]; [|reflexivity].
    rewrite (IH (f ++ bs)), (IH ([] ++ bs)).
    destruct (write_loop rest []); [|reflexivity].
    cbn [app]. now rewrite app_assoc.
Qed.

Lemma encode_decode_map (bs : bytes) :
  is_ascii (decode_ascii_replace bs) = true ->
  map (fun c => byte_of_Z (Z.of_N c)) (decode_ascii_replace bs) = bs.
Proof.
  induction bs as [|b bs IH]; intros H; [reflexivity|].
  unfold decode_ascii_replace in *. cbn [map is_ascii forallb] in *.
  apply andb_true_iff in H. destruct H as [Hb H].
  rewrite (IH H). f_equal.
  destruct (Byte.to_N b <? 128)%N; [exact (byte_of_Z_of_byte b)|].
  cbv in Hb. discriminate Hb.
Qed.

(** Encoding undoes decoding when no byte was replaced. *)
Lemma encode_decode_ascii (bs : bytes) :
  is_ascii (decode_ascii_replace bs) = true ->
  encode_ascii (decode_ascii_replace bs) = Ok bs.
Proof.
  intros H. unfold encode_ascii. rewrite H. f_equal.
  now apply encode_decode_map.
Qed.

Lemma len_decode (bs : bytes) : len (decode_ascii_replace bs) = len bs.
Proof. unfold len, decode_ascii_replace. now rewrite length_map. Qed.

Lemma write_chunk_wire (r : WireChunk) :
  wire_ok r -> is_ascii (type_ (chunk_of r)) = true ->
  write_chunk (chunk_of r) = Ok (wire_bytes r).
Proof.
  intros Hr Ha. pose proof (wire_ok_len_u32 r Hr) as Hu.
  unfold write_chunk, chunk_of in *. cbn [length_ type_ data_ crc_] in *.
  rewrite to_bytes_ok by exact Hu.
  rewrite encode_decode_ascii by exact Ha.
  rewrite to_bytes_ok by exact (compute_crc_u32 _ _). reflexivity.
Qed.

Lemma write_loop_wires (rs : list WireChunk) (f : bytes) :
  Forall wire_ok rs ->
  Forall (fun ch => is_ascii (type_ ch) = true) (map chunk_of rs) ->
  write_loop (map chunk_of rs) f = Ok (f ++ flat_map wire_bytes rs).
Proof.
  intros H. revert f.
  induction H as [|r rs Hr _ IH]; intros f Ha; cbn [map write_loop flat_map].
  - now rewrite app_nil_r.
  - inversion Ha as [|? ? Ha1 Ha2]; subst.
    rewrite write_chunk_wire by assumption.
    rewrite IH by assumption. now rewrite <- app_assoc.
Qed.

Lemma write_chunk_size (ch : PNGChunk) :
  writable ch ->
  exists bs, write_chunk ch = Ok bs /\ len bs = 12 + length_ ch.
Proof.
  intros (Hl & Ht & Ha & Hul & Huc). unfold write_chunk.
  rewrite to_bytes_ok by exact Hul.
  unfold encode_ascii. rewrite Ha.
  rewrite to_bytes_ok by exact Huc.
  eexists. split; [reflexivity|].
  rewrite !len_app, !len_be_digits. unfold len at 1. rewrite length_map.
  fold (len (type_ ch)). lia.
Qed.

Lemma write_loop_size (chunks : list PNGChunk) (f : bytes) :
  Forall writable chunks ->
  exists out, write_loop chunks f = Ok out /\
              len out = len f + (written_size chunks - 8).
Proof.
  intros H. revert f. unfold written_size.
  induction H as [|ch rest Hch _ IH]; intros f; cbn [write_loop fold_right].
  - exists f. split; [reflexivity|lia].
  - destruct (write_chunk_size ch Hch) as (bs & -> & Hbs).
    destruct (IH (f ++ bs)) as (out & -> & Hout).
    exists out. split; [reflexivity|]. rewrite Hout, len_app. lia.
Qed.

End Writer.

(** ** The round trip *)

(** X17: for every input that [read_png_chunks] parses into a chunk list
    all of whose types are ASCII (no type byte was replaced by U+FFFD),
    [write_png_chunks] on the full unfiltered list writes a file identical
    to the input, fields and stored CRCs included, and returns its size. *)
Theorem roundtrip_ascii_types (file : bytes) (chunks : list PNGChunk) :
  read_png_chunks file = Some (Ok chunks) ->
  Forall (fun ch => is_ascii (type_ ch) = true) chunks ->
  write_png_chunks chunks = Ok (file, len file).
Proof.
  intros Hr Ha. apply read_png_chunks_Ok_iff in Hr.
  destruct Hr as (rs & Hrs & -> & ->).
  unfold write_png_chunks. now rewrite write_loop_wires.
Qed.

Lemma roundtrip_ascii_types_witness :
  write_png_chunks
    [mkPNGChunk 0 (str_of_string "IEND") [] 0xAE426082] =
  Ok (PNG_SIGNATURE ++
      [x00; x00; x00; x00; x49; x45; x4e; x44; xae; x42; x60; x82], 20).
Proof.
  apply (roundtrip_ascii_types
           (PNG_SIGNATURE ++
            [x00; x00; x00; x00; x49; x45; x4e; x44; xae; x42; x60; x82])
           [mkPNGChunk 0 (str_of_string "IEND") [] 0xAE426082]).
  - vm_compute. reflexivity.
  - repeat constructor.
Defined.

(** C1: the round trip is to hold for every input that [read_png_chunks]
    parses, and the code breaks it.  The reader, which decodes the type with
    [errors="replace"] to let a non-ASCII type byte through, accepts
    [non_ascii_type_file] and returns a chunk whose type is not the
    "4-char ASCII" its field is documented to be; on that very list the
    writer, which encodes the type strictly, raises [UnicodeEncodeError]
    and writes no file equal to the input, where chunks that are not
    metadata are said to be preserved as they are. *)
Lemma roundtrip_fails_on_non_ascii_type :
  read_png_chunks non_ascii_type_file = Some (Ok [non_ascii_type_chunk]) /\
  write_png_chunks [non_ascii_type_chunk] =
    Raise (UnicodeEncodeError (type_ non_ascii_type_chunk)) /\
  write_png_chunks [non_ascii_type_chunk] <>
    Ok (non_ascii_type_file, len non_ascii_type_file).
Proof.
  split; [|split].
  - vm_compute. reflexivity.
  - vm_compute. reflexivity.
  - vm_compute. discriminate.
Qed.

(** C10: there is a stream that [read_png_chunks] accepts, with a chunk whose
    raw type holds a non-ASCII byte and whose stored CRC is right over the
    raw type bytes and data, that [filter_chunks] keeps, and on which
    [write_png_chunks] raises [UnicodeEncodeError] while writing the type:
    neither a format, an integrity, a truncation nor an I/O error. *)
Theorem writer_encoding_error_exists :
  exists (file : bytes) (r : WireChunk) (chunks : list PNGChunk),
    file = wire_stream [r] /\ wire_ok r /\
    is_ascii (map Byte.to_N (wire_type r)) = false /\
    read_png_chunks file = Some (Ok chunks) /\
    Forall (fun ch => crc_ ch = crc32 (wire_type r ++ data_ ch)) chunks /\
    fst (filter_chunks chunks) = chunks /\
    chunks <> [] /\
    exists s, write_png_chunks (fst (filter_chunks chunks)) =
              Raise (UnicodeEncodeError s).
Proof.
  exists non_ascii_type_file, (mkWireChunk [x80; x41; x42; x43] []),
    [non_ascii_type_chunk].
  split; [vm_compute; reflexivity|].
  split; [split; vm_compute; reflexivity|].
  split; [vm_compute; reflexivity|].
  split; [vm_compute; reflexivity|].
  split; [repeat constructor|].
  split; [vm_compute; reflexivity|].
  split; [discriminate|].
  eexists. vm_compute. reflexivity.
Qed.

(** ** The size the writer returns *)

Lemma reader_produced_u32 (ch : PNGChunk) :
  reader_produced ch -> u32 (length_ ch) /\ u32 (crc_ ch).
Proof.
  intros (file & chunks & Hr & Hin).
  apply read_png_chunks_Ok_iff in Hr. destruct Hr as (rs & Hrs & _ & ->).
  apply in_map_iff in Hin. destruct Hin as (r & <- & Hin).
  rewrite Forall_forall in Hrs. specialize (Hrs r Hin).
  split; [now apply wire_ok_len_u32|exact (compute_crc_u32 _ _)].
Qed.

(** C8: for every chunk list whose chunks each satisfy
    [length == len(data)] and have a 4-character ASCII type, as the reader
    produces them from an ASCII-typed stream, [write_png_chunks] returns the
    byte count written, [8 + sum (12 + length)]. *)
Theorem write_png_chunks_size (chunks : list PNGChunk) :
  Forall (fun ch => length_ ch = len (data_ ch) /\ len (type_ ch) = 4 /\
                    is_ascii (type_ ch) = true /\ reader_produced ch)
    chunks ->
  exists f, write_png_chunks chunks = Ok (f, written_size chunks) /\
            len f = written_size chunks.
Proof.
  intros H. unfold write_png_chunks.
  assert (Hw : Forall writable chunks).
  { eapply Forall_impl; [|exact H]. intros ch (Hl & Ht & Ha & Hp).
    destruct (reader_produced_u32 ch Hp). unfold writable. tauto. }
  destruct (write_loop_size chunks PNG_SIGNATURE Hw) as (out & -> & Hout).
  change (len PNG_SIGNATURE) with 8 in Hout.
  exists out. split; [f_equal; f_equal|]; lia.
Qed.

Lemma write_png_chunks_size_witness :
  exists f,
    write_png_chunks [mkPNGChunk 1 (str_of_string "IDAT") [x01] 0x5F3F4D7E] =
      Ok (f, 21) /\ len f = 21.
Proof.
  apply (write_png_chunks_size
           [mkPNGChunk 1 (str_of_string "IDAT") [x01] 0x5F3F4D7E]).
  constructor; [|constructor].
  split; [reflexivity|]. split; [reflexivity|]. split; [reflexivity|].
  exists (PNG_SIGNATURE ++
          [x00; x00; x00; x01; x49; x44; x41; x54; x01; x5f; x3f; x4d; x7e]).
  exists [mkPNGChunk 1 (str_of_string "IDAT") [x01] 0x5F3F4D7E].
  split; [vm_compute; reflexivity|now left].
Defined.

(** The 32-bit range that the reader guarantees is needed: on a chunk with
    [length == len(data)] and a 4-character ASCII type whose [crc] is 2^32,
    which no file gives, [crc.to_bytes(4, "big")] raises
    [OverflowError]. *)
Remark write_png_chunks_overflow :
  let ch := mkPNGChunk 0 (str_of_string "IEND") [] (2 ^ 32) in
  length_ ch = len (data_ ch) /\ len (type_ ch) = 4 /\
  is_ascii (type_ ch) = true /\
  write_png_chunks [ch] = Raise (OverflowError (2 ^ 32)).
Proof. vm_compute. repeat split; reflexivity. Qed.

(** ** The filter *)

Section Filter.

Lemma str_in_In (t : str) (names : list str) :
  str_in t names = true <-> In t names.
Proof.
  unfold str_in. rewrite existsb_exists. split.
  - intros (x & Hx & E). apply str_eqb_eq in E. now subst.
  - intros H. exists t. split; [assumption|]. now apply str_eqb_eq.
Qed.

(** No type is both core and metadata. *)
Lemma core_not_dropped (t : str) :
  str_in t CORE_CHUNKS = true -> str_in t DROP_CHUNKS = false.
Proof.
  intros H. apply str_in_In in H. cbn in H.
  repeat (destruct H as [<-|H]; [reflexivity|]). destruct H.
Qed.

Lemma kept_type_not_dropped (t : str) :
  kept_type t = negb (str_in t DROP_CHUNKS).
Proof.
  unfold kept_type. destruct (str_in t CORE_CHUNKS) eqn:E.
  - now rewrite (core_not_dropped t E).
  - reflexivity.
Qed.

(** The loop appends the kept chunks, in order, and counts the others. *)
Lemma filter_loop_spec (chunks kept : list PNGChunk) (removed : Z) :
  filter_loop chunks kept removed =
  (kept ++ filter (fun ch => kept_type (type_ ch)) chunks,
   removed + len (filter (fun ch => str_in (type_ ch) DROP_CHUNKS) chunks)).
Proof.
  revert kept removed.
  induction chunks as [|ch rest IH]; intros kept removed;
    cbn [filter_loop filter].
  - rewrite app_nil_r. change (len []) with 0. now rewrite Z.add_0_r.
  - rewrite kept_type_not_dropped.
    destruct (str_in (type_ ch) CORE_CHUNKS) eqn:Ec.
    + rewrite (core_not_dropped _ Ec). cbn [negb].
      rewrite IH, <- app_assoc. reflexivity.
    + destruct (str_in (type_ ch) DROP_CHUNKS); cbn [negb].
      * rewrite IH, len_cons. f_equal. lia.
      * rewrite IH, <- app_assoc. reflexivity.
Qed.

Lemma filter_chunks_spec (chunks : list PNGChunk) :
  filter_chunks chunks =
  (filter (fun ch => kept_type (type_ ch)) chunks,
   len (filter (fun ch => str_in (type_ ch) DROP_CHUNKS) chunks)).
Proof. unfold filter_chunks. now rewrite filter_loop_spec. Qed.

Lemma filter_kept_fixed (chunks : list PNGChunk) :
  Forall (fun ch => kept_type (type_ ch) = true) chunks ->
  filter_chunks chunks = (chunks, 0).
Proof.
  intros H. rewrite filter_chunks_spec. f_equal.
  - induction H as [|ch rest Hch _ IH]; cbn [filter]; [reflexivity|].
    now rewrite Hch, IH.
  - induction H as [|ch rest Hch _ IH]; cbn [filter]; [reflexivity|].
    rewrite kept_type_not_dropped in Hch.
    destruct (str_in (type_ ch) DROP_CHUNKS); [discriminate|exact IH].
Qed.

End Filter.

(** C2: [filter_chunks] keeps exactly the chunks whose type is in
    [CORE_CHUNKS] or in neither set, discards exactly those whose type is in
    [DROP_CHUNKS], keeps the kept chunks unchanged and in their original
    order, and returns the number of discarded chunks; on
    [[IHDR; tEXt; IDAT; tIME; IEND]] it gives [[IHDR; IDAT; IEND]] and 2. *)
Theorem filter_chunks_classification :
  (forall chunks : list PNGChunk,
     fst (filter_chunks chunks) =
       filter (fun ch => kept_type (type_ ch)) chunks /\
     fst (filter_chunks chunks) =
       filter (fun ch => negb (str_in (type_ ch) DROP_CHUNKS)) chunks /\
     snd (filter_chunks chunks) =
       len (filter (fun ch => str_in (type_ ch) DROP_CHUNKS) chunks) /\
     len chunks = len (fst (filter_chunks chunks)) + snd (filter_chunks chunks))
  /\
  (forall t : str,
     (str_in t CORE_CHUNKS = true <->
      In t (map str_of_string ["IHDR"; "PLTE"; "IDAT"; "IEND"]%string)) /\
     (str_in t DROP_CHUNKS = true <->
      In t (map str_of_string
              ["tEXt"; "zTXt"; "iTXt"; "tIME"; "pHYs"; "gAMA"]%string)))
  /\
  (forall (l1 l2 l3 l4 l5 c1 c2 c3 c4 c5 : Z) (d1 d2 d3 d4 d5 : bytes),
     filter_chunks
       [mkPNGChunk l1 (str_of_string "IHDR") d1 c1;
        mkPNGChunk l2 (str_of_string "tEXt") d2 c2;
        mkPNGChunk l3 (str_of_string "IDAT") d3 c3;
        mkPNGChunk l4 (str_of_string "tIME") d4 c4;
        mkPNGChunk l5 (str_of_string "IEND") d5 c5] =
     ([mkPNGChunk l1 (str_of_string "IHDR") d1 c1;
       mkPNGChunk l3 (str_of_string "IDAT") d3 c3;
       mkPNGChunk l5 (str_of_string "IEND") d5 c5], 2)).
Proof.
  split; [|split].
  - intros chunks. rewrite filter_chunks_spec. cbn [fst snd].
    split; [reflexivity|]. split; [|split; [reflexivity|]].
    + apply filter_ext. intros ch. apply kept_type_not_dropped.
    + induction chunks as [|ch rest IH]; cbn [filter]; [reflexivity|].
      rewrite kept_type_not_dropped.
      destruct (str_in (type_ ch) DROP_CHUNKS); cbn [negb];
        rewrite !len_cons; lia.
  - intros t. split; apply str_in_In.
  - intros. reflexivity.
Qed.

(** C4: filtering the kept list of a first filtering returns that list
    unchanged and a removed count of 0. *)
Theorem filter_chunks_idempotent (chunks : list PNGChunk) :
  filter_chunks (fst (filter_chunks chunks)) = (fst (filter_chunks chunks), 0).
Proof.
  apply filter_kept_fixed. rewrite filter_chunks_spec. cbn [fst].
  apply Forall_forall. intros ch H. apply filter_In in H. tauto.
Qed.

(** ** Classification by decoded text and by raw bytes *)

Section Classification.

Lemma to_N_inj (a b : byte) : Byte.to_N a = Byte.to_N b -> a = b.
Proof.
  intros H. apply (f_equal Byte.of_N) in H. rewrite !Byte.of_to_N in H.
  congruence.
Qed.

(** Decoding can only confuse types that hold a non-ASCII byte. *)
Lemma decode_inj_ascii (bs name : bytes) :
  is_ascii (decode_ascii_replace name) = true ->
  decode_ascii_replace bs = decode_ascii_replace name -> bs = name.
Proof.
  revert name. induction bs as [|b bs IH]; intros [|n name] Ha E;
    try discriminate E; [reflexivity|].
  unfold decode_ascii_replace in *. cbn [map is_ascii forallb] in *.
  apply andb_true_iff in Ha. destruct Ha as [Hn Ha].
  injection E as Eb E. f_equal; [|now apply IH].
  destruct (Byte.to_N n <? 128)%N eqn:En; [|cbv in Hn; discriminate Hn].
  destruct (Byte.to_N b <? 128)%N eqn:Eb'.
  - now apply to_N_inj.
  - rewrite <- Eb in En. cbv in En. discriminate En.
Qed.

Lemma str_in_decode (bs : bytes) (names : list bytes) :
  Forall (fun name => is_ascii (decode_ascii_replace name) = true) names ->
  str_in (decode_ascii_replace bs) (map decode_ascii_replace names) =
  bytes_in bs names.
Proof.
  intros H. unfold str_in, bytes_in.
  induction H as [|name names Hn _ IH]; cbn [map existsb]; [reflexivity|].
  rewrite IH. f_equal.
  destruct (bytes_eqb bs name) eqn:E.
  - apply bytes_eqb_eq in E. subst. now apply str_eqb_eq.
  - destruct (str_eqb _ _) eqn:E'; [|reflexivity].
    apply str_eqb_eq, decode_inj_ascii in E'; [|assumption].
    apply bytes_eqb_eq in E'. congruence.
Qed.

Lemma CORE_CHUNKS_decoded :
  CORE_CHUNKS = map decode_ascii_replace CORE_CHUNKS_BYTES.
Proof. vm_compute. reflexivity. Qed.

Lemma DROP_CHUNKS_decoded :
  DROP_CHUNKS = map decode_ascii_replace DROP_CHUNKS_BYTES.
Proof. vm_compute. reflexivity. Qed.

Lemma names_ascii :
  Forall (fun name => is_ascii (decode_ascii_replace name) = true)
    (CORE_CHUNKS_BYTES ++ DROP_CHUNKS_BYTES).
Proof. repeat constructor. Qed.

Lemma classify_decode (type_bytes : bytes) :
  classify (decode_ascii_replace type_bytes) = classify_raw type_bytes.
Proof.
  unfold classify, classify_raw.
  pose proof names_ascii as H. apply Forall_app in H. destruct H as [Hc Hd].
  rewrite CORE_CHUNKS_decoded, DROP_CHUNKS_decoded.
  now rewrite !str_in_decode by assumption.
Qed.

Lemma kept_type_classify (t : str) :
  kept_type t = match classify t with
                | Dropped => false
                | Core | PassThrough => true
                end.
Proof.
  unfold kept_type, classify.
  destruct (str_in t CORE_CHUNKS); [reflexivity|].
  destruct (str_in t DROP_CHUNKS); reflexivity.
Qed.

Lemma dropped_classify (t : str) :
  str_in t DROP_CHUNKS = match classify t with
                         | Dropped => true
                         | Core | PassThrough => false
                         end.
Proof.
  unfold classify. destruct (str_in t CORE_CHUNKS) eqn:E.
  - now apply core_not_dropped.
  - destruct (str_in t DROP_CHUNKS); reflexivity.
Qed.

(** What [filter_chunks] does to chunks built by [build] from items whose
    raw type is [raw]: it keeps and counts as the raw classification
    says. *)
Lemma filter_chunks_by_raw {A} (raw : A -> bytes) (build : A -> PNGChunk)
  (xs : list A) :
  (forall x, type_ (build x) = decode_ascii_replace (raw x)) ->
  filter_chunks (map build xs) =
  (map build (filter (fun x => kept_raw (raw x)) xs),
   len (filter (fun x => negb (kept_raw (raw x))) xs)).
Proof.
  intros Hb. rewrite filter_chunks_spec, !filter_map_swap. f_equal.
  - f_equal. apply filter_ext. intros x.
    now rewrite Hb, kept_type_classify, classify_decode.
  - unfold len. rewrite length_map. do 2 f_equal. apply filter_ext.
    intros x. rewrite Hb, dropped_classify, classify_decode.
    unfold kept_raw. now destruct (classify_raw (raw x)).
Qed.

End Classification.

(** C9: the three-way decision that [filter_chunks] takes on the type as
    the reader decoded it is, for every raw type (every 4-byte one among
    them), the decision that comparing the raw bytes against the byte
    encodings of [CORE_CHUNKS] and [DROP_CHUNKS] gives.  So on every list
    of chunks built as the reader builds them, and on the chunks of every
    stream of whole chunks, [filter_chunks] keeps exactly the chunks that
    the raw classification does not drop, unchanged and in order, and
    counts the others; each turn of its loop takes the branch of the
    decoded decision. *)
Theorem classify_decoded_raw :
  (forall type_bytes : bytes,
     classify (decode_ascii_replace type_bytes) = classify_raw type_bytes) /\
  (forall xs : list RawFields,
     filter_chunks (map as_read xs) =
     (map as_read (filter (fun x => kept_raw (raw_type x)) xs),
      len (filter (fun x => negb (kept_raw (raw_type x))) xs))) /\
  (forall rs : list WireChunk,
     filter_chunks (map chunk_of rs) =
     (map chunk_of (filter (fun r => kept_raw (wire_type r)) rs),
      len (filter (fun r => negb (kept_raw (wire_type r))) rs))) /\
  (forall (ch : PNGChunk) (rest kept : list PNGChunk) (removed : Z),
     filter_loop (ch :: rest) kept removed =
     match classify (type_ ch) with
     | Core => filter_loop rest (kept ++ [ch]) removed
     | Dropped => filter_loop rest kept (removed + 1)
     | PassThrough => filter_loop rest (kept ++ [ch]) removed
     end).
Proof.
  split; [exact classify_decode|].
  split; [intros xs; now apply filter_chunks_by_raw|].
  split; [intros rs; now apply filter_chunks_by_raw|].
  intros ch rest kept removed. cbn [filter_loop]. unfold classify.
  destruct (str_in (type_ ch) CORE_CHUNKS); [reflexivity|].
  destruct (str_in (type_ ch) DROP_CHUNKS); reflexivity.
Qed.

(** ** Truncated streams *)

Section Truncation.

Lemma not_len4 (bs : bytes) : len bs < 4 -> negb (len bs =? 4) = true.
Proof. intros H. destruct (Z.eqb_spec (len bs) 4); [lia|reflexivity]. Qed.

Lemma nonempty_not_nil (bs : bytes) : 0 < len bs -> bytes_eqb bs [] = false.
Proof.
  intros H. destruct (bytes_eqb bs []) eqn:E; [|reflexivity].
  apply bytes_eqb_eq in E. subst bs. discriminate H.
Qed.

Lemma read_loop_ends_in_length (fuel : nat) (tail : bytes)
  (chunks : list PNGChunk) :
  0 < len tail < 4 ->
  read_loop (S fuel) tail chunks = Some (Raise EOFLength).
Proof.
  intros H. rewrite read_loop_S, take_all by lia.
  rewrite nonempty_not_nil, not_len4 by lia. reflexivity.
Qed.

Lemma read_loop_ends_in_type (fuel : nat) (len_bytes t : bytes)
  (chunks : list PNGChunk) :
  len len_bytes = 4 -> len t < 4 ->
  read_loop (S fuel) (len_bytes ++ t) chunks = Some (Raise EOFType).
Proof.
  intros Hl Ht. rewrite read_loop_S.
  rewrite (take_app_len 4 len_bytes), (drop_app_len 4 len_bytes) by assumption.
  rewrite len4_not_nil, Hl by assumption. cbn [Z.eqb Pos.eqb negb]. cbv zeta.
  rewrite take_all by lia. now rewrite not_len4.
Qed.

Lemma read_loop_ends_in_data (fuel : nat) (len_bytes type_bytes d : bytes)
  (chunks : list PNGChunk) :
  len len_bytes = 4 -> len type_bytes = 4 -> len d < from_bytes len_bytes ->
  read_loop (S fuel) (len_bytes ++ type_bytes ++ d) chunks =
  Some (Raise (EOFData (decode_ascii_replace type_bytes))).
Proof.
  intros Hl Ht Hd. rewrite read_loop_S.
  rewrite (take_app_len 4 len_bytes), (drop_app_len 4 len_bytes) by assumption.
  rewrite len4_not_nil, Hl by assumption. cbn [Z.eqb Pos.eqb negb]. cbv zeta.
  rewrite (take_app_len 4 type_bytes), (drop_app_len 4 type_bytes)
    by assumption.
  rewrite Ht. cbn [Z.eqb Pos.eqb negb].
  rewrite take_all by lia.
  destruct (Z.eqb_spec (len d) (from_bytes len_bytes)); [lia|reflexivity].
Qed.

Lemma read_loop_ends_in_crc (fuel : nat) (len_bytes type_bytes d c : bytes)
  (chunks : list PNGChunk) :
  len len_bytes = 4 -> len type_bytes = 4 -> len d = from_bytes len_bytes ->
  len c < 4 ->
  read_loop (S fuel) (len_bytes ++ type_bytes ++ d ++ c) chunks =
  Some (Raise (EOFCRC (decode_ascii_replace type_bytes))).
Proof.
  intros Hl Ht Hd Hc. rewrite read_loop_S.
  rewrite (take_app_len 4 len_bytes), (drop_app_len 4 len_bytes) by assumption.
  rewrite len4_not_nil, Hl by assumption. cbn [Z.eqb Pos.eqb negb]. cbv zeta.
  rewrite (take_app_len 4 type_bytes), (drop_app_len 4 type_bytes)
    by assumption.
  rewrite Ht. cbn [Z.eqb Pos.eqb negb].
  rewrite <- Hd, (take_app_len (len d) d), (drop_app_len (len d) d)
    by reflexivity.
  rewrite Z.eqb_refl. cbn [negb].
  rewrite take_all by lia. now rewrite not_len4.
Qed.

End Truncation.

(** C6, as the code has it: when the stream stops inside (or just before)
    one of the four fields of a chunk, a declared length beyond the bytes
    left included, [read_png_chunks] raises a truncation error whose message
    says which field was being read; when that field is the data or the CRC
    the message also names the decoded type of the chunk, and when it is the
    length or the type it names no chunk.  No message carries a chunk
    index. *)
Theorem truncation_diagnostics (rs : list WireChunk) (tail : bytes)
  (fld : ChunkField) :
  Forall wire_ok rs -> ends_in fld tail ->
  exists e,
    read_png_chunks (wire_stream rs ++ tail) = Some (Raise e) /\
    error_kind e = TruncationError /\
    error_field e = Some fld /\
    error_chunk_index e = None /\
    error_chunk_type e =
      match fld with
      | FieldLength | FieldType => None
      | FieldData | FieldCRC =>
        Some (decode_ascii_replace (take 4 (drop 4 tail)))
      end.
Proof.
  intros Hrs Ht. rewrite read_png_chunks_wires by assumption.
  destruct Ht as [tail H|lb t Hl H|lb tb d Hl Htb H|lb tb d c Hl Htb Hd H].
  - exists EOFLength. rewrite read_loop_ends_in_length by assumption.
    repeat split; reflexivity.
  - exists EOFType. rewrite read_loop_ends_in_type by assumption.
    repeat split; reflexivity.
  - exists (EOFData (decode_ascii_replace tb)).
    rewrite read_loop_ends_in_data by assumption.
    rewrite (drop_app_len 4 lb), (take_app_len 4 tb) by assumption.
    repeat split; reflexivity.
  - exists (EOFCRC (decode_ascii_replace tb)).
    rewrite read_loop_ends_in_crc by assumption.
    rewrite (drop_app_len 4 lb), (take_app_len 4 tb) by assumption.
    repeat split; reflexivity.
Qed.

Lemma truncation_diagnostics_witness :
  exists e,
    read_png_chunks
      (wire_stream [mkWireChunk [x49; x44; x41; x54] [x01]] ++
       [x00; x00; x00; x05] ++ [x74; x45; x58; x74] ++ [x68; x69]) =
      Some (Raise e) /\
    error_kind e = TruncationError /\
    error_field e = Some FieldData /\
    error_chunk_index e = None /\
    error_chunk_type e = Some (str_of_string "tEXt").
Proof.
  apply (truncation_diagnostics
           [mkWireChunk [x49; x44; x41; x54] [x01]]
           ([x00; x00; x00; x05] ++ [x74; x45; x58; x74] ++ [x68; x69])
           FieldData).
  - repeat constructor.
  - apply ends_in_data; vm_compute; reflexivity.
Defined.

(** C6 as stated fails: a stream that stops two bytes into a length field
    gets the message for the length field, which names neither a chunk index
    nor a chunk type. *)
Lemma truncation_in_length_names_no_chunk :
  ends_in FieldLength [x00; x00] /\
  read_png_chunks (PNG_SIGNATURE ++ [x00; x00]) = Some (Raise EOFLength) /\
  error_chunk_index EOFLength = None /\
  error_chunk_type EOFLength = None.
Proof.
  split; [apply ends_in_length; vm_compute; split; reflexivity|].
  vm_compute. repeat split; reflexivity.
Qed.

(** ** Corrupted data *)

Section Corruption.

(** The byte at position [length A] of [A ++ b :: B], and the stream on
    either side of it. *)
Lemma splice (A B : bytes) (b : byte) :
  nth_error (A ++ b :: B) (List.length A) = Some b /\
  firstn (List.length A) (A ++ b :: B) = A /\
  skipn (S (List.length A)) (A ++ b :: B) = B.
Proof.
  induction A as [|a A (IH1 & IH2 & IH3)]; [repeat split|].
  cbn [List.length app nth_error firstn skipn] in *.
  repeat split; [assumption| |assumption]. now rewrite IH2.
Qed.

(** The loop on a chunk whose data differs in one byte from the data its
    stored CRC was computed over. *)
Lemma read_loop_corrupted (fuel : nat) (r : WireChunk) (d1 d2 rest : bytes)
  (b b' : byte) (chunks : list PNGChunk) :
  wire_ok r -> wire_data r = d1 ++ b :: d2 -> b <> b' ->
  read_loop (S fuel)
    (be_digits 4 (len (wire_data r)) ++ wire_type r ++ (d1 ++ b' :: d2) ++
     be_digits 4 (compute_crc (wire_type r) (wire_data r)) ++ rest) chunks =
  Some (Raise (CRCMismatch (decode_ascii_replace (wire_type r))
                 (compute_crc (wire_type r) (d1 ++ b' :: d2))
                 (compute_crc (wire_type r) (wire_data r)))).
Proof.
  intros Hr Hd Hb. pose proof (wire_ok_len_u32 r Hr) as Hu.
  destruct Hr as [Ht _].
  rewrite read_loop_turn.
  - rewrite from_bytes_be_digits4 by exact (compute_crc_u32 _ _).
    destruct (Z.eqb_spec (compute_crc (wire_type r) (wire_data r))
                (compute_crc (wire_type r) (d1 ++ b' :: d2))) as [E|E];
      [|reflexivity].
    rewrite Hd in E. exfalso.
    exact (compute_crc_detects_byte _ _ _ _ _ Hb E).
  - apply len_be_digits.
  - assumption.
  - rewrite from_bytes_be_digits4 by assumption.
    rewrite Hd, !len_app, !len_cons. reflexivity.
  - apply len_be_digits.
Qed.

End Corruption.

(** C3: take any list of well-formed chunks laid out as a PNG stream, and
    change one byte in the data region of one of them, the stored CRC and
    every other byte left as they were.  [read_png_chunks] raises the
    CRC-mismatch error, of kind integrity, which reports the expected CRC
    (over the changed data) and the stored one, and so returns no chunk. *)
Theorem crc_detection (pre post : list WireChunk) (r : WireChunk)
  (d1 d2 : bytes) (b b' : byte) :
  Forall wire_ok (pre ++ r :: post) ->
  wire_data r = d1 ++ b :: d2 ->
  b <> b' ->
  let file := wire_stream (pre ++ r :: post) in
  let p := (List.length (wire_stream pre) + 8 + List.length d1)%nat in
  let e := CRCMismatch (decode_ascii_replace (wire_type r))
             (compute_crc (wire_type r) (d1 ++ b' :: d2))
             (compute_crc (wire_type r) (wire_data r)) in
  nth_error file p = Some b /\
  read_png_chunks (firstn p file ++ b' :: skipn (S p) file) = Some (Raise e) /\
  error_kind e = IntegrityError /\
  error_crcs e = Some (compute_crc (wire_type r) (d1 ++ b' :: d2),
                       from_bytes (firstn 4 (skipn (S p + List.length d2) file))).
Proof.
  intros Hall Hd Hb file p e.
  apply Forall_app in Hall. destruct Hall as [Hpre Hall].
  inversion Hall as [|? ? Hr Hpost]; subst.
  set (A := wire_stream pre ++ be_digits 4 (len (wire_data r)) ++
            wire_type r ++ d1).
  set (crc_bytes := be_digits 4 (compute_crc (wire_type r) (wire_data r))).
  set (B := d2 ++ crc_bytes ++ flat_map wire_bytes post).
  assert (Hfile : file = A ++ b :: B).
  { unfold file, A, B, crc_bytes, wire_stream.
    rewrite flat_map_app. cbn [flat_map]. unfold wire_bytes at 2.
    rewrite Hd. now rewrite <- !app_assoc. }
  assert (Hp : p = List.length A).
  { unfold p, A. rewrite !length_app, length_be_digits.
    destruct Hr as [Ht _]. unfold len in Ht. lia. }
  destruct (splice A B b) as (S1 & S2 & S3).
  rewrite Hfile, Hp, S1, S2, S3.
  split; [reflexivity|]. split; [|split; [reflexivity|]].
  - unfold A, B. rewrite <- !app_assoc.
    rewrite read_png_chunks_wires by assumption.
    replace (be_digits 4 (len (wire_data r)) ++ wire_type r ++ d1 ++
             b' :: d2 ++ crc_bytes ++ flat_map wire_bytes post)
      with (be_digits 4 (len (wire_data r)) ++ wire_type r ++
            (d1 ++ b' :: d2) ++ crc_bytes ++ flat_map wire_bytes post)
      by (now rewrite <- !app_assoc).
    apply (read_loop_corrupted _ r d1 d2 _ b b'); assumption.
  - cbn [error_crcs e]. unfold e. cbn [error_crcs]. do 2 f_equal.
    replace (S (List.length A) + List.length d2)%nat
      with (List.length (A ++ b :: d2))
      by (rewrite length_app; cbn [List.length]; lia).
    replace (A ++ b :: B) with ((A ++ b :: d2) ++ crc_bytes ++
                                flat_map wire_bytes post)
      by (unfold B; now rewrite <- !app_assoc).
    rewrite skipn_app, skipn_all, Nat.sub_diag. cbn [app skipn].
    rewrite firstn_app.
    replace (List.length crc_bytes) with 4%nat
      by (unfold crc_bytes; now rewrite length_be_digits).
    rewrite firstn_all2 by (unfold crc_bytes; rewrite length_be_digits; lia).
    cbn [Nat.sub firstn]. rewrite app_nil_r.
    unfold crc_bytes. symmetry. apply from_bytes_be_digits4.
    exact (compute_crc_u32 _ _).
Qed.

Lemma crc_detection_witness :
  let IDAT := mkWireChunk [x49; x44; x41; x54] [x01] in
  let tEXt := mkWireChunk [x74; x45; x58; x74] [x68; x69] in
  let IEND := mkWireChunk [x49; x45; x4e; x44] [] in
  let file := wire_stream [IDAT; tEXt; IEND] in
  let e := CRCMismatch (str_of_string "tEXt")
             (compute_crc [x74; x45; x58; x74] [x68; x6a]) 0x7569E6DF in
  nth_error file 30 = Some x69 /\
  read_png_chunks (firstn 30 file ++ x6a :: skipn 31 file) = Some (Raise e) /\
  error_kind e = IntegrityError /\
  error_crcs e = Some (compute_crc [x74; x45; x58; x74] [x68; x6a],
                       0x7569E6DF).
Proof.
  intros IDAT tEXt IEND file e.
  apply (crc_detection [IDAT] [IEND] tEXt [x68] [] x69 x6a).
  - repeat constructor.
  - reflexivity.
  - discriminate.
Defined.

(** ** Normal end of stream *)

(** C5: [read_png_chunks] returns exactly on the streams that end at a chunk
    boundary, the signature followed by whole CRC-correct chunks, with the
    chunks of the stream as its result; the signature alone gives the empty
    list; and no chunk need be [IEND]: a stream holding a single [IDAT]
    chunk, and one where a chunk follows [IEND], are both read. *)
Theorem normal_end_of_stream :
  (forall (file : bytes) (chunks : list PNGChunk),
     read_png_chunks file = Some (Ok chunks) <->
     exists rs, Forall wire_ok rs /\ file = wire_stream rs /\
                chunks = map chunk_of rs) /\
  read_png_chunks PNG_SIGNATURE = Some (Ok []) /\
  read_png_chunks
    (wire_stream [mkWireChunk [x49; x44; x41; x54] [x01]]) =
    Some (Ok [mkPNGChunk 1 (str_of_string "IDAT") [x01] 0x5F3F4D7E]) /\
  read_png_chunks
    (wire_stream [mkWireChunk [x49; x45; x4e; x44] [];
                  mkWireChunk [x49; x44; x41; x54] [x01]]) =
    Some (Ok [mkPNGChunk 0 (str_of_string "IEND") [] 0xAE426082;
              mkPNGChunk 1 (str_of_string "IDAT") [x01] 0x5F3F4D7E]).
Proof.
  split; [exact read_png_chunks_Ok_iff|].
  split; [vm_compute; reflexivity|].
  split; vm_compute; reflexivity.
Qed.

(** ** What the reader guarantees of its chunks *)

(** C7: every chunk that a successful [read_png_chunks] returns has
    [length == len(data)], a [crc] in the unsigned 32-bit range that is the
    CRC-32 (polynomial 0xEDB88320) of the raw type bytes of the file
    followed by the data, and a type of four characters. *)
Theorem reader_chunk_invariant (file : bytes) (chunks : list PNGChunk) :
  read_png_chunks file = Some (Ok chunks) ->
  exists rs : list WireChunk,
    file = wire_stream rs /\
    Forall2 (fun r ch =>
               data_ ch = wire_data r /\
               length_ ch = len (data_ ch) /\
               0 <= crc_ ch < 2 ^ 32 /\
               crc_ ch = crc32 (wire_type r ++ data_ ch) /\
               len (wire_type r) = 4 /\
               type_ ch = decode_ascii_replace (wire_type r) /\
               len (type_ ch) = 4) rs chunks.
Proof.
  intros H.
  apply read_png_chunks_Ok_iff in H. destruct H as (rs & Hrs & -> & ->).
  exists rs. split; [reflexivity|].
  induction Hrs as [|r rs [Ht Hd] _ IH]; cbn [map]; constructor; [|exact IH].
  unfold chunk_of. cbn [length_ type_ data_ crc_].
  rewrite len_decode, <- compute_crc_crc32.
  pose proof (compute_crc_u32 (wire_type r) (wire_data r)). tauto.
Qed.

Lemma reader_chunk_invariant_witness :
  exists rs : list WireChunk,
    PNG_SIGNATURE ++
      [x00; x00; x00; x01; x49; x44; x41; x54; x01; x5f; x3f; x4d; x7e] =
      wire_stream rs /\
    Forall2 (fun r ch =>
               data_ ch = wire_data r /\
               length_ ch = len (data_ ch) /\
               0 <= crc_ ch < 2 ^ 32 /\
               crc_ ch = crc32 (wire_type r ++ data_ ch) /\
               len (wire_type r) = 4 /\
               type_ ch = decode_ascii_replace (wire_type r) /\
               len (type_ ch) = 4)
      rs [mkPNGChunk 1 (str_of_string "IDAT") [x01] 0x5F3F4D7E].
Proof.
  apply (reader_chunk_invariant
           (PNG_SIGNATURE ++
            [x00; x00; x00; x01; x49; x44; x41; x54; x01; x5f; x3f; x4d; x7e])
           [mkPNGChunk 1 (str_of_string "IDAT") [x01] 0x5F3F4D7E]).
  vm_compute. reflexivity.
Defined.

(* ------------------------------------------------------------------ *)
(** * Further properties of the codec *)

(** ** The filter, beyond its classification *)

Section FilterMore.

Lemma filter_filter_keep {A} (p q : A -> bool) (l : list A) :
  (forall x, p x = true -> q x = true) ->
  filter p (filter q l) = filter p l.
Proof.
  intros H. induction l as [|x l IH]; cbn [filter]; [reflexivity|].
  destruct (q x) eqn:Eq; cbn [filter].
  - now rewrite IH.
  - destruct (p x) eqn:Ep; [|exact IH].
    apply H in Ep. congruence.
Qed.

Lemma len_filter_le {A} (p : A -> bool) (l : list A) :
  len (filter p l) <= len l.
Proof. unfold len. pose proof (filter_length_le p l). lia. Qed.

Lemma fold_add_shift (l : list Z) (a : Z) :
  fold_left Z.add l a = a + fold_left Z.add l 0.
Proof.
  revert a. induction l as [|x l IH]; intros a; cbn [fold_left]; [lia|].
  rewrite (IH (a + x)), (IH (0 + x)). lia.
Qed.

Lemma total_size_cons (ch : PNGChunk) (chunks : list PNGChunk) :
  total_size (ch :: chunks) = 12 + length_ ch + total_size chunks.
Proof.
  unfold total_size. cbn [map fold_left]. rewrite fold_add_shift, len_cons.
  lia.
Qed.

Lemma total_size_nil : total_size [] = 0.
Proof. reflexivity. Qed.

End FilterMore.

(** X9: every core chunk of the input is in the kept list, with the core
    chunks in their original order and number. *)
Theorem filter_chunks_preserves_core (chunks : list PNGChunk) :
  filter is_core (fst (filter_chunks chunks)) = filter is_core chunks.
Proof.
  rewrite filter_chunks_spec. cbn [fst]. apply filter_filter_keep.
  intros ch H. unfold is_core in H. unfold kept_type. now rewrite H.
Qed.

(** X10: no chunk of a metadata type is left in the kept list. *)
Theorem filter_chunks_drops_all (chunks : list PNGChunk) :
  Forall (fun ch => ~ In (type_ ch) DROP_CHUNKS) (fst (filter_chunks chunks)).
Proof.
  rewrite filter_chunks_spec. cbn [fst]. apply Forall_forall.
  intros ch H. apply filter_In in H. destruct H as [_ H].
  rewrite kept_type_not_dropped in H. intros Hin.
  apply str_in_In in Hin. rewrite Hin in H. discriminate H.
Qed.

(** X11: filtering a concatenation is filtering the parts: the kept lists are
    concatenated and the removed counts added. *)
Theorem filter_chunks_app (a b : list PNGChunk) :
  filter_chunks (a ++ b) =
  (fst (filter_chunks a) ++ fst (filter_chunks b),
   snd (filter_chunks a) + snd (filter_chunks b)).
Proof.
  rewrite !filter_chunks_spec. cbn [fst snd].
  now rewrite !filter_app, len_app.
Qed.

(** X12: the removed count is 0 exactly when the kept list is the input. *)
Theorem filter_chunks_unchanged_iff (chunks : list PNGChunk) :
  snd (filter_chunks chunks) = 0 <-> fst (filter_chunks chunks) = chunks.
Proof.
  rewrite filter_chunks_spec. cbn [fst snd]. split.
  - intros H. induction chunks as [|ch rest IH]; cbn [filter] in *;
      [reflexivity|].
    rewrite kept_type_not_dropped.
    destruct (str_in (type_ ch) DROP_CHUNKS); cbn [negb].
    + rewrite len_cons in H. pose proof (len_nonneg
        (filter (fun ch => str_in (type_ ch) DROP_CHUNKS) rest)). lia.
    + now rewrite IH.
  - intros H. induction chunks as [|ch rest IH]; cbn [filter] in *;
      [reflexivity|].
    rewrite kept_type_not_dropped in H.
    destruct (str_in (type_ ch) DROP_CHUNKS); cbn [negb] in H.
    + exfalso. pose proof (len_filter_le (fun ch => kept_type (type_ ch)) rest)
        as L. rewrite H, len_cons in L. lia.
    + injection H as H. now apply IH.
Qed.

(** X13: when no length is negative, the size [main] accounts for the kept
    list is at most the size it accounts for the input, and the difference
    is at least 12 bytes a removed chunk. *)
Theorem filter_chunks_total_size (chunks : list PNGChunk) :
  Forall (fun ch => 0 <= length_ ch) chunks ->
  total_size (fst (filter_chunks chunks)) + 12 * snd (filter_chunks chunks)
  <= total_size chunks.
Proof.
  intros H. rewrite filter_chunks_spec. cbn [fst snd].
  induction H as [|ch rest Hch _ IH]; cbn [filter].
  - rewrite total_size_nil. change (len []) with 0. lia.
  - rewrite kept_type_not_dropped, total_size_cons.
    destruct (str_in (type_ ch) DROP_CHUNKS); cbn [negb].
    + rewrite len_cons. lia.
    + rewrite total_size_cons. lia.
Qed.

Lemma filter_chunks_total_size_witness :
  total_size
    (fst (filter_chunks [mkPNGChunk 1 (str_of_string "IDAT") [x01] 0;
                         mkPNGChunk 2 (str_of_string "tEXt") [x68; x69] 0])) +
  12 * snd (filter_chunks [mkPNGChunk 1 (str_of_string "IDAT") [x01] 0;
                           mkPNGChunk 2 (str_of_string "tEXt") [x68; x69] 0])
  <= total_size [mkPNGChunk 1 (str_of_string "IDAT") [x01] 0;
                 mkPNGChunk 2 (str_of_string "tEXt") [x68; x69] 0].
Proof.
  apply (filter_chunks_total_size
           [mkPNGChunk 1 (str_of_string "IDAT") [x01] 0;
            mkPNGChunk 2 (str_of_string "tEXt") [x68; x69] 0]).
  repeat constructor; cbn; lia.
Defined.

(** ** The reader, beyond the claims *)

Section ReaderMore.

(** The loop never raises the signature error. *)
Lemma read_loop_not_signature (fuel : nat) (f : bytes)
  (chunks : list PNGChunk) :
  read_loop fuel f chunks <> Some (Raise NotValidPNG).
Proof.
  revert f chunks. induction fuel as [|fuel IH]; intros f chunks;
    [discriminate|].
  rewrite read_loop_S. cbv zeta.
  repeat match goal with
         | |- context [if negb ?c then _ else _] =>
           destruct c; cbn [negb]; try discriminate
         | |- context [if bytes_eqb ?a ?b then _ else _] =>
           destruct (bytes_eqb a b); try discriminate
         end.
  apply IH.
Qed.

Lemma len_wire_bytes (r : WireChunk) :
  wire_ok r -> len (wire_bytes r) = 12 + len (wire_data r).
Proof.
  intros [Ht _]. unfold wire_bytes. rewrite !len_app, !len_be_digits. lia.
Qed.

Lemma len_wire_stream (rs : list WireChunk) :
  Forall wire_ok rs ->
  len (wire_stream rs) = 8 + total_size (map chunk_of rs).
Proof.
  intros H. unfold wire_stream. rewrite len_app.
  change (len PNG_SIGNATURE) with 8. f_equal.
  induction H as [|r rs Hr _ IH]; cbn [flat_map map]; [reflexivity|].
  rewrite len_app, len_wire_bytes, total_size_cons, IH by assumption.
  reflexivity.
Qed.

(** Two byte strings of one length with one value are one string. *)
Lemma from_bytes_inj (a b : bytes) :
  List.length a = List.length b -> from_bytes a = from_bytes b -> a = b.
Proof.
  intros Hl Hv. rewrite <- (be_digits_from_bytes a), <- (be_digits_from_bytes b).
  now rewrite Hl, Hv.
Qed.

End ReaderMore.

(** X1: the loop of [read_png_chunks] terminates on every file: the reader
    always returns a list or raises. *)
Theorem read_png_chunks_terminates (file : bytes) :
  exists r, read_png_chunks file = Some r.
Proof.
  destruct (read_png_chunks file) as [r|] eqn:E; [now exists r|].
  exfalso. unfold read_png_chunks, read in E.
  destruct (negb (bytes_eqb (take 8 file) PNG_SIGNATURE)); [discriminate|].
  revert E. apply read_loop_total. lia.
Qed.

(** X2: the reader raises "Not a valid PNG file" exactly on the files that do
    not start with the 8-byte signature, the files shorter than 8 bytes
    among them. *)
Theorem read_png_chunks_signature_error (file : bytes) :
  read_png_chunks file = Some (Raise NotValidPNG) <->
  ~ exists rest, file = PNG_SIGNATURE ++ rest.
Proof.
  split.
  - intros H (rest & ->). rewrite read_png_chunks_signature in H.
    now apply read_loop_not_signature in H.
  - intros H. unfold read_png_chunks, read.
    destruct (bytes_eqb (take 8 file) PNG_SIGNATURE) eqn:E; [|reflexivity].
    exfalso. apply H. exists (drop 8 file). apply bytes_eqb_eq in E.
    now rewrite <- E, take_drop.
Qed.

(** X3: a file that the reader accepts is 8 bytes longer than the size [main]
    accounts for its chunks, the sum of the lengths and 12 bytes a chunk. *)
Theorem read_png_chunks_file_size (file : bytes) (chunks : list PNGChunk) :
  read_png_chunks file = Some (Ok chunks) ->
  len file = 8 + total_size chunks.
Proof.
  intros H. apply read_png_chunks_Ok_iff in H.
  destruct H as (rs & Hrs & -> & ->). now apply len_wire_stream.
Qed.

Lemma read_png_chunks_file_size_witness :
  len (PNG_SIGNATURE ++
       [x00; x00; x00; x01; x49; x44; x41; x54; x01; x5f; x3f; x4d; x7e]) =
  8 + total_size [mkPNGChunk 1 (str_of_string "IDAT") [x01] 0x5F3F4D7E].
Proof.
  apply (read_png_chunks_file_size
           (PNG_SIGNATURE ++
            [x00; x00; x00; x01; x49; x44; x41; x54; x01; x5f; x3f; x4d; x7e])
           [mkPNGChunk 1 (str_of_string "IDAT") [x01] 0x5F3F4D7E]).
  vm_compute. reflexivity.
Defined.

(** X4: a changed byte in the type field of a chunk, the stored CRC and every
    other byte left as they were, makes the reader raise the CRC mismatch
    for that chunk, under its changed type. *)
Theorem type_corruption_detected (pre post : list WireChunk) (r : WireChunk)
  (t1 t2 : bytes) (b b' : byte) :
  Forall wire_ok (pre ++ r :: post) ->
  wire_type r = t1 ++ b :: t2 ->
  b <> b' ->
  let file := wire_stream (pre ++ r :: post) in
  let p := (List.length (wire_stream pre) + 4 + List.length t1)%nat in
  nth_error file p = Some b /\
  read_png_chunks (firstn p file ++ b' :: skipn (S p) file) =
    Some (Raise (CRCMismatch (decode_ascii_replace (t1 ++ b' :: t2))
                   (compute_crc (t1 ++ b' :: t2) (wire_data r))
                   (compute_crc (wire_type r) (wire_data r)))).
Proof.
  intros Hall Ht Hb file p.
  apply Forall_app in Hall. destruct Hall as [Hpre Hall].
  inversion Hall as [|? ? Hr Hpost]; subst.
  pose proof (wire_ok_len_u32 r Hr) as Hu. destruct Hr as [Hlen _].
  set (crc_bytes := be_digits 4 (compute_crc (wire_type r) (wire_data r))).
  set (A := wire_stream pre ++ be_digits 4 (len (wire_data r)) ++ t1).
  set (B := t2 ++ wire_data r ++ crc_bytes ++ flat_map wire_bytes post).
  assert (Hfile : file = A ++ b :: B).
  { unfold file, A, B, crc_bytes, wire_stream.
    rewrite flat_map_app. cbn [flat_map]. unfold wire_bytes at 2.
    rewrite Ht. now rewrite <- !app_assoc. }
  assert (Hp : p = List.length A).
  { unfold p, A. rewrite !length_app, length_be_digits. lia. }
  destruct (splice A B b) as (S1 & S2 & S3).
  rewrite Hfile, Hp, S1, S2, S3. split; [reflexivity|].
  unfold A, B. rewrite <- !app_assoc.
  rewrite read_png_chunks_wires by assumption.
  replace (be_digits 4 (len (wire_data r)) ++ t1 ++ b' :: t2 ++
           wire_data r ++ crc_bytes ++ flat_map wire_bytes post)
    with (be_digits 4 (len (wire_data r)) ++ (t1 ++ b' :: t2) ++
          wire_data r ++ crc_bytes ++ flat_map wire_bytes post)
    by (now rewrite <- !app_assoc).
  rewrite read_loop_turn.
  - unfold crc_bytes.
    rewrite from_bytes_be_digits4 by exact (compute_crc_u32 _ _).
    destruct (Z.eqb_spec (compute_crc (wire_type r) (wire_data r))
                (compute_crc (t1 ++ b' :: t2) (wire_data r))) as [E|E];
      [|reflexivity].
    exfalso. rewrite Ht, !compute_crc_crc32, <- !app_assoc in E.
    cbn [app] in E. exact (crc32_detects_byte _ _ _ _ Hb E).
  - apply len_be_digits.
  - rewrite Ht in Hlen. rewrite !len_app, !len_cons in *. exact Hlen.
  - now apply from_bytes_be_digits4.
  - apply len_be_digits.
Qed.

Lemma type_corruption_detected_witness :
  let IDAT := mkWireChunk [x49; x44; x41; x54] [x01] in
  let tEXt := mkWireChunk [x74; x45; x58; x74] [x68; x69] in
  let file := wire_stream [IDAT; tEXt] in
  nth_error file 25 = Some x74 /\
  read_png_chunks (firstn 25 file ++ x73 :: skipn 26 file) =
    Some (Raise (CRCMismatch (str_of_string "sEXt")
                   (compute_crc [x73; x45; x58; x74] [x68; x69])
                   0x7569E6DF)).
Proof.
  intros IDAT tEXt file.
  apply (type_corruption_detected [IDAT] [] tEXt [] [x45; x58; x74] x74 x73).
  - repeat constructor.
  - reflexivity.
  - discriminate.
Defined.

(** X5: a changed byte in the CRC field of a chunk makes the reader raise the
    CRC mismatch for that chunk, reporting the CRC it computed and the
    changed value it found. *)
Theorem crc_field_corruption_detected (pre post : list WireChunk)
  (r : WireChunk) (c1 c2 : bytes) (b b' : byte) :
  Forall wire_ok (pre ++ r :: post) ->
  be_digits 4 (compute_crc (wire_type r) (wire_data r)) = c1 ++ b :: c2 ->
  b <> b' ->
  let file := wire_stream (pre ++ r :: post) in
  let p := (List.length (wire_stream pre) + 8 + List.length (wire_data r) +
            List.length c1)%nat in
  nth_error file p = Some b /\
  read_png_chunks (firstn p file ++ b' :: skipn (S p) file) =
    Some (Raise (CRCMismatch (decode_ascii_replace (wire_type r))
                   (compute_crc (wire_type r) (wire_data r))
                   (from_bytes (c1 ++ b' :: c2)))).
Proof.
  intros Hall Hc Hb file p.
  apply Forall_app in Hall. destruct Hall as [Hpre Hall].
  inversion Hall as [|? ? Hr Hpost]; subst.
  pose proof (wire_ok_len_u32 r Hr) as Hu. destruct Hr as [Hlen _].
  assert (Hc4 : List.length (c1 ++ b :: c2) = 4%nat)
    by (rewrite <- Hc; apply length_be_digits).
  set (A := wire_stream pre ++ be_digits 4 (len (wire_data r)) ++
            wire_type r ++ wire_data r ++ c1).
  set (B := c2 ++ flat_map wire_bytes post).
  assert (Hfile : file = A ++ b :: B).
  { unfold file, A, B, wire_stream.
    rewrite flat_map_app. cbn [flat_map]. unfold wire_bytes at 2.
    rewrite Hc. now rewrite <- !app_assoc. }
  assert (Hp : p = List.length A).
  { unfold p, A. rewrite !length_app, length_be_digits.
    unfold len in Hlen. lia. }
  destruct (splice A B b) as (S1 & S2 & S3).
  rewrite Hfile, Hp, S1, S2, S3. split; [reflexivity|].
  unfold A, B. rewrite <- !app_assoc.
  rewrite read_png_chunks_wires by assumption.
  replace (be_digits 4 (len (wire_data r)) ++ wire_type r ++ wire_data r ++
           c1 ++ b' :: c2 ++ flat_map wire_bytes post)
    with (be_digits 4 (len (wire_data r)) ++ wire_type r ++ wire_data r ++
          (c1 ++ b' :: c2) ++ flat_map wire_bytes post)
    by (now rewrite <- !app_assoc).
  rewrite read_loop_turn.
  - destruct (Z.eqb_spec (from_bytes (c1 ++ b' :: c2))
                (compute_crc (wire_type r) (wire_data r))) as [E|E];
      [|reflexivity].
    exfalso.
    rewrite <- (from_bytes_be_digits4 (compute_crc (wire_type r) (wire_data r)))
      in E by exact (compute_crc_u32 _ _).
    rewrite Hc in E. apply from_bytes_inj in E.
    + apply app_inv_head in E. congruence.
    + rewrite !length_app. reflexivity.
  - apply len_be_digits.
  - assumption.
  - now apply from_bytes_be_digits4.
  - unfold len. rewrite length_app in *. cbn [List.length] in *. lia.
Qed.

Lemma crc_field_corruption_detected_witness :
  let IEND := mkWireChunk [x49; x45; x4e; x44] [] in
  let file := wire_stream [IEND] in
  nth_error file 19 = Some x82 /\
  read_png_chunks (firstn 19 file ++ x83 :: skipn 20 file) =
    Some (Raise (CRCMismatch (str_of_string "IEND") 0xAE426082 0xAE426083)).
Proof.
  intros IEND file.
  apply (crc_field_corruption_detected [] [] IEND [xae; x42; x60] [] x82 x83).
  - repeat constructor.
  - reflexivity.
  - discriminate.
Defined.

(** ** The writer, beyond the claims *)

Section WriterMore.

Lemma decode_ascii_bytes (s : str) :
  is_ascii s = true -> decode_ascii_replace (ascii_bytes s) = s.
Proof.
  induction s as [|c s IH]; intros H; [reflexivity|].
  unfold decode_ascii_replace, ascii_bytes in *.
  cbn [map is_ascii forallb] in *.
  apply andb_true_iff in H. destruct H as [Hc H]. rewrite (IH H). f_equal.
  apply N.ltb_lt in Hc.
  assert (E : Byte.to_N (byte_of_Z (Z.of_N c)) = c).
  { apply N2Z.inj. apply (Z_of_byte_of_Z (Z.of_N c)). lia. }
  rewrite E. apply N.ltb_lt in Hc. now rewrite Hc.
Qed.

Lemma len_ascii_bytes (s : str) : len (ascii_bytes s) = len s.
Proof. unfold len, ascii_bytes. now rewrite length_map. Qed.

Lemma write_chunk_encodable (ch : PNGChunk) :
  encodable ch ->
  write_chunk ch =
  Ok (be_digits 4 (length_ ch) ++ ascii_bytes (type_ ch) ++ data_ ch ++
      be_digits 4 (crc_ ch)).
Proof.
  intros (Hl & Ha & Hc). unfold write_chunk, encode_ascii.
  rewrite to_bytes_ok by exact Hl. rewrite Ha.
  rewrite to_bytes_ok by exact Hc. reflexivity.
Qed.

Lemma write_chunk_Ok_encodable (ch : PNGChunk) (bs : bytes) :
  write_chunk ch = Ok bs -> encodable ch.
Proof.
  unfold write_chunk, encode_ascii. intros H.
  destruct (to_bytes (length_ ch) 4) as [lb|] eqn:El; [|discriminate].
  destruct (is_ascii (type_ ch)) eqn:Ea; [|discriminate].
  destruct (to_bytes (crc_ ch) 4) as [cb|] eqn:Ec; [|discriminate].
  apply to_bytes_inv in El, Ec. unfold encodable, u32.
  change (256 ^ Z.of_nat 4) with (2 ^ 32) in *. tauto.
Qed.

Lemma write_loop_Ok_encodable (chunks : list PNGChunk) (f out : bytes) :
  write_loop chunks f = Ok out -> Forall encodable chunks.
Proof.
  revert f. induction chunks as [|ch rest IH]; intros f H; [constructor|].
  cbn [write_loop] in H.
  destruct (write_chunk ch) as [bs|] eqn:E; [|discriminate].
  constructor; [now apply write_chunk_Ok_encodable in E|now apply IH in H].
Qed.

Lemma write_loop_encodable (chunks : list PNGChunk) (f : bytes) :
  Forall encodable chunks -> exists out, write_loop chunks f = Ok out.
Proof.
  intros H. revert f. induction H as [|ch rest Hch _ IH]; intros f;
    cbn [write_loop].
  - now exists f.
  - rewrite write_chunk_encodable by assumption. apply IH.
Qed.

Lemma write_loop_concat (a b : list PNGChunk) (f : bytes) :
  write_loop (a ++ b) f =
  match write_loop a f with
  | Ok g => write_loop b g
  | Raise e => Raise e
  end.
Proof.
  revert f. induction a as [|ch a IH]; intros f; cbn [app write_loop];
    [reflexivity|].
  destruct (write_chunk ch); [apply IH|reflexivity].
Qed.

Lemma framed_wire_ok (ch : PNGChunk) : framed ch -> wire_ok (wire_of ch).
Proof.
  intros (Hl & Hu & Ht & Ha). unfold wire_ok, wire_of.
  cbn [wire_type wire_data]. rewrite len_ascii_bytes.
  split; [assumption|]. rewrite <- Hl. apply Hu.
Qed.

Lemma sealed_chunk_of (ch : PNGChunk) : sealed ch -> chunk_of (wire_of ch) = ch.
Proof.
  intros ((Hl & Hu & Ht & Ha) & Hc). unfold chunk_of, wire_of.
  cbn [wire_type wire_data]. rewrite decode_ascii_bytes by assumption.
  rewrite <- Hl, <- Hc. now destruct ch.
Qed.

Lemma sealed_chunks_of (chunks : list PNGChunk) :
  Forall sealed chunks ->
  map chunk_of (map wire_of chunks) = chunks /\
  Forall wire_ok (map wire_of chunks).
Proof.
  intros H. induction H as [|ch rest Hch _ [IH1 IH2]]; cbn [map];
    [split; [reflexivity|constructor]|].
  rewrite sealed_chunk_of, IH1 by assumption.
  split; [reflexivity|]. constructor; [|assumption].
  apply framed_wire_ok, Hch.
Qed.

Lemma sealed_ascii (chunks : list PNGChunk) :
  Forall sealed chunks -> Forall (fun ch => is_ascii (type_ ch) = true) chunks.
Proof.
  intros H. eapply Forall_impl; [|exact H].
  intros ch ((_ & _ & _ & Ha) & _). exact Ha.
Qed.

End WriterMore.

(** X6: [write_png_chunks] succeeds exactly on the lists whose chunks each
    have a [length] and a [crc] in the unsigned 32-bit range and an ASCII
    type; it then returns the size of the file it wrote.  Neither
    [length == len(data)] nor a right CRC is asked for. *)
Theorem write_png_chunks_succeeds_iff (chunks : list PNGChunk) :
  (exists f, write_png_chunks chunks = Ok (f, len f)) <->
  Forall encodable chunks.
Proof.
  unfold write_png_chunks. split.
  - intros (f & H).
    destruct (write_loop chunks PNG_SIGNATURE) as [out|] eqn:E;
      [|discriminate].
    now apply write_loop_Ok_encodable in E.
  - intros H. destruct (write_loop_encodable chunks PNG_SIGNATURE H)
      as (out & ->). now exists out.
Qed.

(** X7: writing then reading is the identity on chunk lists whose chunks are
    framed (length of the data in 32 bits, type of four ASCII characters)
    and carry the CRC-32 of their type and data. *)
Theorem write_then_read (chunks : list PNGChunk) :
  Forall sealed chunks ->
  exists f, write_png_chunks chunks = Ok (f, len f) /\
            read_png_chunks f = Some (Ok chunks).
Proof.
  intros H. destruct (sealed_chunks_of chunks H) as [Hm Hw].
  exists (wire_stream (map wire_of chunks)). split.
  - unfold write_png_chunks. rewrite <- Hm at 1.
    rewrite write_loop_wires; [reflexivity|assumption|].
    rewrite Hm. now apply sealed_ascii.
  - apply read_png_chunks_Ok_iff. exists (map wire_of chunks). auto.
Qed.

Lemma write_then_read_witness :
  exists f,
    write_png_chunks
      [mkPNGChunk 1 (str_of_string "IDAT") [x01] 0x5F3F4D7E;
       mkPNGChunk 0 (str_of_string "IEND") [] 0xAE426082] = Ok (f, len f) /\
    read_png_chunks f =
      Some (Ok [mkPNGChunk 1 (str_of_string "IDAT") [x01] 0x5F3F4D7E;
                mkPNGChunk 0 (str_of_string "IEND") [] 0xAE426082]).
Proof.
  apply (write_then_read
           [mkPNGChunk 1 (str_of_string "IDAT") [x01] 0x5F3F4D7E;
            mkPNGChunk 0 (str_of_string "IEND") [] 0xAE426082]).
  repeat constructor; vm_compute; congruence.
Defined.

(** X8: the writer neither checks nor recomputes a CRC.  A framed chunk whose
    [crc] is in range but is not the CRC-32 of its type and data is written
    as it is, and the reader rejects the written file at that chunk with
    the CRC mismatch, reporting the CRC it computed and the stored one. *)
Theorem stale_crc_written_then_rejected (pre post : list PNGChunk)
  (ch : PNGChunk) :
  Forall sealed pre -> framed ch -> u32 (crc_ ch) ->
  crc_ ch <> compute_crc (ascii_bytes (type_ ch)) (data_ ch) ->
  Forall encodable post ->
  exists f,
    write_png_chunks (pre ++ ch :: post) = Ok (f, len f) /\
    read_png_chunks f =
      Some (Raise (CRCMismatch (type_ ch)
                     (compute_crc (ascii_bytes (type_ ch)) (data_ ch))
                     (crc_ ch))).
Proof.
  intros Hpre Hf Hc Hne Hpost.
  destruct (sealed_chunks_of pre Hpre) as [Hm Hw].
  pose proof Hf as (Hl & Hu & Ht & Ha).
  set (tail := be_digits 4 (length_ ch) ++ ascii_bytes (type_ ch) ++
               data_ ch ++ be_digits 4 (crc_ ch)).
  destruct (write_loop_encodable post [] Hpost) as (body & Hbody).
  exists (wire_stream (map wire_of pre) ++ tail ++ body). split.
  - unfold write_png_chunks. rewrite write_loop_concat.
    rewrite <- Hm at 1.
    rewrite write_loop_wires;
      [|assumption|rewrite Hm; now apply sealed_ascii].
    cbn [write_loop]. rewrite write_chunk_encodable by (split; auto).
    rewrite write_loop_app, Hbody. fold tail. unfold wire_stream.
    now rewrite <- !app_assoc.
  - rewrite read_png_chunks_wires by assumption.
    unfold tail. rewrite <- !app_assoc. rewrite read_loop_turn.
    + rewrite from_bytes_be_digits4 by assumption.
      destruct (Z.eqb_spec (crc_ ch)
                  (compute_crc (ascii_bytes (type_ ch)) (data_ ch)));
        [contradiction|].
      now rewrite decode_ascii_bytes.
    + apply len_be_digits.
    + now rewrite len_ascii_bytes.
    + rewrite from_bytes_be_digits4 by assumption. exact Hl.
    + apply len_be_digits.
Qed.

Lemma stale_crc_written_then_rejected_witness :
  exists f,
    write_png_chunks
      [mkPNGChunk 1 (str_of_string "IDAT") [x01] 0x5F3F4D7E;
       mkPNGChunk 0 (str_of_string "IEND") [] 0] = Ok (f, len f) /\
    read_png_chunks f =
      Some (Raise (CRCMismatch (str_of_string "IEND") 0xAE426082 0)).
Proof.
  apply (stale_crc_written_then_rejected
           [mkPNGChunk 1 (str_of_string "IDAT") [x01] 0x5F3F4D7E] []
           (mkPNGChunk 0 (str_of_string "IEND") [] 0)).
  - repeat constructor; vm_compute; congruence.
  - repeat split; vm_compute; congruence.
  - split; vm_compute; congruence.
  - vm_compute. discriminate.
  - constructor.
Defined.

(** ** Reading, filtering and writing, as [main] chains them *)

Section Pipeline.

(** The metadata types are ASCII: a type that holds U+FFFD is never
    dropped. *)
Lemma dropped_type_ascii (t : str) :
  str_in t DROP_CHUNKS = true -> is_ascii t = true.
Proof.
  intros H. apply str_in_In in H. cbn in H.
  repeat (destruct H as [<-|H]; [reflexivity|]). destruct H.
Qed.

(** The kept list of what the reader returned is what the reader returns on
    the kept wire chunks. *)
Lemma kept_of_wires (rs : list WireChunk) :
  Forall wire_ok rs ->
  exists rs',
    Forall wire_ok rs' /\
    fst (filter_chunks (map chunk_of rs)) = map chunk_of rs'.
Proof.
  intros H. rewrite filter_chunks_spec. cbn [fst].
  rewrite filter_map_swap. eexists. split; [|reflexivity].
  apply Forall_forall. intros r Hr. apply filter_In in Hr.
  rewrite Forall_forall in H. now apply H.
Qed.

Lemma kept_total_size_le (chunks : list PNGChunk) :
  Forall (fun ch => 0 <= length_ ch) chunks ->
  total_size (filter (fun ch => kept_type (type_ ch)) chunks) <=
  total_size chunks.
Proof.
  intros H. induction H as [|ch rest Hch _ IH]; cbn [filter]; [lia|].
  rewrite total_size_cons.
  destruct (kept_type (type_ ch)); [rewrite total_size_cons|]; lia.
Qed.

Lemma chunk_of_length_nonneg (rs : list WireChunk) :
  Forall (fun ch => 0 <= length_ ch) (map chunk_of rs).
Proof.
  apply Forall_forall. intros ch H. apply in_map_iff in H.
  destruct H as (r & <- & _). apply len_nonneg.
Qed.

Lemma chunk_of_encodable_but_type (r : WireChunk) :
  wire_ok r -> u32 (length_ (chunk_of r)) /\ u32 (crc_ (chunk_of r)).
Proof.
  intros H. split; [now apply wire_ok_len_u32|exact (compute_crc_u32 _ _)].
Qed.

(** On chunks whose numbers fit, the writer raises at the first type that
    is not ASCII. *)
Lemma write_loop_non_ascii (chunks : list PNGChunk) (f : bytes) :
  Forall (fun ch => u32 (length_ ch) /\ u32 (crc_ ch)) chunks ->
  Exists (fun ch => is_ascii (type_ ch) = false) chunks ->
  exists ch, In ch chunks /\ is_ascii (type_ ch) = false /\
             write_loop chunks f = Raise (UnicodeEncodeError (type_ ch)).
Proof.
  intros H. revert f.
  induction H as [|ch rest [Hl Hc] _ IH]; intros f Hex;
    [inversion Hex|].
  cbn [write_loop]. destruct (is_ascii (type_ ch)) eqn:Ea.
  - rewrite write_chunk_encodable by (split; auto).
    inversion Hex as [? ? Hh|? ? Ht]; subst; [congruence|].
    destruct (IH (f ++ be_digits 4 (length_ ch) ++ ascii_bytes (type_ ch) ++
                      data_ ch ++ be_digits 4 (crc_ ch)) Ht)
      as (ch' & Hin & Ha' & Hw).
    exists ch'. split; [now right|]. split; assumption.
  - exists ch. split; [now left|]. split; [assumption|].
    unfold write_chunk, encode_ascii.
    rewrite to_bytes_ok by exact Hl. now rewrite Ea.
Qed.

End Pipeline.

(** X14: when the writer succeeds on the kept list of a file that the reader
    accepted, the file it wrote is read back by the reader as exactly the
    kept list, the size it returns is the size of that file, and the file
    is shorter than the input by the size [main] accounts for the removed
    chunks, so never longer. *)
Theorem cleaned_file_is_valid (file out : bytes) (chunks : list PNGChunk)
  (n : Z) :
  read_png_chunks file = Some (Ok chunks) ->
  write_png_chunks (fst (filter_chunks chunks)) = Ok (out, n) ->
  read_png_chunks out = Some (Ok (fst (filter_chunks chunks))) /\
  n = len out /\
  len file - len out =
    total_size chunks - total_size (fst (filter_chunks chunks)) /\
  len out <= len file.
Proof.
  intros Hr Hw. apply read_png_chunks_Ok_iff in Hr.
  destruct Hr as (rs & Hrs & -> & ->).
  destruct (kept_of_wires rs Hrs) as (rs' & Hrs' & Hk).
  assert (Hle : total_size (fst (filter_chunks (map chunk_of rs))) <=
                total_size (map chunk_of rs)).
  { rewrite filter_chunks_spec. cbn [fst].
    apply kept_total_size_le, chunk_of_length_nonneg. }
  rewrite Hk in *.
  unfold write_png_chunks in Hw.
  destruct (write_loop (map chunk_of rs') PNG_SIGNATURE) as [g|] eqn:E;
    [|discriminate].
  injection Hw as -> <-.
  assert (Ha : Forall (fun ch => is_ascii (type_ ch) = true)
                 (map chunk_of rs')).
  { apply write_loop_Ok_encodable in E. eapply Forall_impl; [|exact E].
    intros ch (_ & Ha & _). exact Ha. }
  rewrite write_loop_wires in E by assumption.
  assert (Eg : out = wire_stream rs') by (unfold wire_stream; congruence).
  subst out.
  split; [apply read_png_chunks_Ok_iff; exists rs'; auto|].
  split; [reflexivity|].
  rewrite !len_wire_stream by assumption. lia.
Qed.

Lemma cleaned_file_is_valid_witness :
  let IDAT := mkWireChunk [x49; x44; x41; x54] [x01] in
  let tEXt := mkWireChunk [x74; x45; x58; x74] [x68; x69] in
  let IEND := mkWireChunk [x49; x45; x4e; x44] [] in
  let chunks := map chunk_of [IDAT; tEXt; IEND] in
  let out := wire_stream [IDAT; IEND] in
  read_png_chunks out = Some (Ok (fst (filter_chunks chunks))) /\
  33 = len out /\
  len (wire_stream [IDAT; tEXt; IEND]) - len out =
    total_size chunks - total_size (fst (filter_chunks chunks)) /\
  len out <= len (wire_stream [IDAT; tEXt; IEND]).
Proof.
  intros IDAT tEXt IEND chunks out.
  apply (cleaned_file_is_valid (wire_stream [IDAT; tEXt; IEND]) out chunks 33).
  - vm_compute. reflexivity.
  - vm_compute. reflexivity.
Defined.

(** X15: cleaning is idempotent on files.  When the writer succeeds on the
    kept list of an accepted file, reading the written file, filtering and
    writing again removes nothing and writes the same file. *)
Theorem cleaning_twice (file out : bytes) (chunks : list PNGChunk) (n : Z) :
  read_png_chunks file = Some (Ok chunks) ->
  write_png_chunks (fst (filter_chunks chunks)) = Ok (out, n) ->
  exists chunks',
    read_png_chunks out = Some (Ok chunks') /\
    snd (filter_chunks chunks') = 0 /\
    write_png_chunks (fst (filter_chunks chunks')) = Ok (out, n).
Proof.
  intros Hr Hw. exists (fst (filter_chunks chunks)).
  assert (Hfix : filter_chunks (fst (filter_chunks chunks)) =
                 (fst (filter_chunks chunks), 0)).
  { apply filter_kept_fixed. rewrite filter_chunks_spec. cbn [fst].
    apply Forall_forall. intros ch H. apply filter_In in H. tauto. }
  rewrite Hfix. cbn [fst snd]. split; [|split; [reflexivity|exact Hw]].
  apply read_png_chunks_Ok_iff in Hr.
  destruct Hr as (rs & Hrs & -> & ->).
  destruct (kept_of_wires rs Hrs) as (rs' & Hrs' & Hk).
  rewrite Hk in *. unfold write_png_chunks in Hw.
  destruct (write_loop (map chunk_of rs') PNG_SIGNATURE) as [g|] eqn:E;
    [|discriminate].
  injection Hw as -> <-.
  assert (Ha : Forall (fun ch => is_ascii (type_ ch) = true)
                 (map chunk_of rs')).
  { apply write_loop_Ok_encodable in E. eapply Forall_impl; [|exact E].
    intros ch (_ & Ha & _). exact Ha. }
  rewrite write_loop_wires in E by assumption.
  assert (Eg : out = wire_stream rs') by (unfold wire_stream; congruence).
  subst out. apply read_png_chunks_Ok_iff. exists rs'. auto.
Qed.

Lemma cleaning_twice_witness :
  let IDAT := mkWireChunk [x49; x44; x41; x54] [x01] in
  let tEXt := mkWireChunk [x74; x45; x58; x74] [x68; x69] in
  let out := wire_stream [IDAT] in
  exists chunks',
    read_png_chunks out = Some (Ok chunks') /\
    snd (filter_chunks chunks') = 0 /\
    write_png_chunks (fst (filter_chunks chunks')) = Ok (out, 21).
Proof.
  intros IDAT tEXt out.
  apply (cleaning_twice (wire_stream [IDAT; tEXt]) out
           (map chunk_of [IDAT; tEXt]) 21).
  - vm_compute. reflexivity.
  - vm_compute. reflexivity.
Defined.

(** X16: a chunk whose raw type holds a byte above 127 is never dropped, and
    it stops the writer.  On every accepted file with such a chunk, writing
    the kept list raises [UnicodeEncodeError] on the type of one of the
    file's chunks, whatever the other chunks are. *)
Theorem non_ascii_type_stops_writer (file : bytes) (chunks : list PNGChunk) :
  read_png_chunks file = Some (Ok chunks) ->
  Exists (fun ch => is_ascii (type_ ch) = false) chunks ->
  exists ch,
    In ch chunks /\ is_ascii (type_ ch) = false /\
    write_png_chunks (fst (filter_chunks chunks)) =
      Raise (UnicodeEncodeError (type_ ch)).
Proof.
  intros Hr Hex. apply read_png_chunks_Ok_iff in Hr.
  destruct Hr as (rs & Hrs & -> & ->).
  set (chunks := map chunk_of rs) in *.
  assert (Hnum : Forall (fun ch => u32 (length_ ch) /\ u32 (crc_ ch))
                   (fst (filter_chunks chunks))).
  { rewrite filter_chunks_spec. cbn [fst]. apply Forall_forall.
    intros ch H. apply filter_In in H. destruct H as [H _].
    apply in_map_iff in H. destruct H as (r & <- & Hin).
    rewrite Forall_forall in Hrs. now apply chunk_of_encodable_but_type, Hrs. }
  assert (Hex' : Exists (fun ch => is_ascii (type_ ch) = false)
                   (fst (filter_chunks chunks))).
  { rewrite filter_chunks_spec. cbn [fst].
    apply Exists_exists in Hex. destruct Hex as (ch & Hin & Ha).
    apply Exists_exists. exists ch. split; [|assumption].
    apply filter_In. split; [assumption|].
    rewrite kept_type_not_dropped.
    destruct (str_in (type_ ch) DROP_CHUNKS) eqn:Ed; [|reflexivity].
    apply dropped_type_ascii in Ed. congruence. }
  destruct (write_loop_non_ascii _ PNG_SIGNATURE Hnum Hex')
    as (ch & Hin & Ha & Hw).
  exists ch. split; [|split; [assumption|]].
  - rewrite filter_chunks_spec in Hin. cbn [fst] in Hin.
    apply filter_In in Hin. tauto.
  - unfold write_png_chunks. now rewrite Hw.
Qed.

Lemma non_ascii_type_stops_writer_witness :
  exists ch,
    In ch [mkPNGChunk 1 (str_of_string "IDAT") [x01] 0x5F3F4D7E;
           non_ascii_type_chunk] /\
    is_ascii (type_ ch) = false /\
    write_png_chunks
      (fst (filter_chunks
              [mkPNGChunk 1 (str_of_string "IDAT") [x01] 0x5F3F4D7E;
               non_ascii_type_chunk])) =
      Raise (UnicodeEncodeError (type_ ch)).
Proof.
  apply (non_ascii_type_stops_writer
           (wire_stream [mkWireChunk [x49; x44; x41; x54] [x01];
                         mkWireChunk [x80; x41; x42; x43] []])).
  - vm_compute. reflexivity.
  - apply Exists_cons_tl, Exists_cons_hd. vm_compute. reflexivity.
Defined.
